(** * Thrift2 chat subsystem: room key, message store and socket listeners

    A shallow embedding of the Socket.io chat code of the server
    (the two [io.on("connection", ...)] blocks, [sendEmailNotification],
    the [MessageSchema] and the [GET /api/chat/:userId] route), with the
    properties of the chat specification stated over it. *)

From Stdlib Require Import List String Ascii ZArith Bool Lia.
From Stdlib Require Import Sorting.Sorted Sorting.Permutation.
Import ListNotations.
Open Scope string_scope.

(** ** JavaScript arrays of strings: [sort()] and [join(sep)] *)

Module JsArray.

(** The default comparator of [Array.prototype.sort]: elements are compared
    as strings, code unit by code unit (identifiers are strings of one-byte
    code units here). *)
Definition SortCompare (x y : string) : comparison := String.compare x y.

(** [insert x l] puts [x] in front of the first element that is not smaller;
    an element that came first stays first among equals (the sort is stable). *)
Fixpoint insert (x : string) (l : list string) : list string :=
  match l with
  | [] => [x]
  | y :: l' =>
      match SortCompare x y with
      | Gt => y :: insert x l'
      | _ => x :: y :: l'
      end
  end.

Definition sort (l : list string) : list string := fold_right insert [] l.

Definition join (sep : string) (l : list string) : string := String.concat sep l.

End JsArray.

(** [const roomId = [senderId, receiverId].sort().join("-");]
    the same expression in the [joinRoom] and the [sendMessage] listener. *)
Definition roomId (senderId receiverId : string) : string :=
  JsArray.join "-" (JsArray.sort [senderId; receiverId]).

(** Two pairs of identifiers are the same unordered pair. *)
Definition same_pair (a b c d : string) : Prop :=
  (a = c /\ b = d) \/ (a = d /\ b = c).

(** ** The object-document mapper

    The schema types, the identifier generator and the [strict] schema option
    belong to Mongoose and its BSON driver, which the repository only calls.
    What the chat code needs from them is gathered here:
    - [castObjectId] casts a string to an [ObjectId] (given by its canonical
      string), or fails; the empty string is never an [ObjectId];
    - [newObjectId n] is the [_id] given to the [n]-th constructed document;
    - [strict] says whether a path unknown to the schema is dropped from an
      update (the schema is built without options, Mongoose's default is
      [true]). *)
Record Mongoose := {
  castObjectId : string -> option string;
  newObjectId : nat -> string;
  strict : bool;
  castObjectId_empty : castObjectId EmptyString = None
}.

(** ** Documents

    [MessageSchema]: [sender] and [receiver] are required [ObjectId]s, [text]
    a required [String], [timestamp] a [Date] defaulting to [Date.now].  The
    schema declares no [read] path; [read m] is [None] while the stored
    document has no such field. *)
Record Message := {
  _id : string;
  sender : string;
  receiver : string;
  text : string;
  timestamp : Z;
  read : option bool
}.

(** [UserSchema], without the password. *)
Record User := {
  user_id : string;
  username : string;
  email : string
}.

(** A message reads as "Seen" when [message.read] is truthy. *)
Definition isRead (m : Message) : bool :=
  match read m with
  | Some true => true
  | _ => false
  end.

Definition withRead (m : Message) : Message :=
  {| _id := _id m; sender := sender m; receiver := receiver m;
     text := text m; timestamp := timestamp m; read := Some true |}.

(** [new Message({ sender: senderId, receiver: receiverId, text })] before
    validation: the fields as they were given. *)
Record Draft := {
  draft_id : string;
  draft_sender : string;
  draft_receiver : string;
  draft_text : string;
  draft_timestamp : Z
}.

(** [mailOptions] of [sendEmailNotification]. *)
Record Mail := {
  mail_from : string;
  mail_to : string;
  mail_subject : string;
  mail_text : string
}.

(** ** The world of the server and what a listener does to it *)

Inductive Target :=
| ToRoom (room : string)   (* io.to(room) *)
| ToAll.                   (* io *)

Inductive Payload :=
| OfMessage (m : Message)
| OfMessageId (messageId : string).

(** What leaves the process: commands sent to the database, events emitted
    through Socket.io, mails handed to the transporter, room subscriptions. *)
Inductive Effect :=
| Insert (m : Message)
| Update (oid : string)
| Emit (target : Target) (event : string) (payload : Payload)
| SendMail (mail : Mail)
| Join (socket : nat) (room : string).

Inductive Error :=
| ValidationError
| CastError
| PersistenceError
| MailError
| ReferenceError.

(** The state around the listeners.  [onlineUsers] says which users have a
    live socket.  The listeners keep no such table: the identifier
    [onlineUsers] that the second [sendMessage] listener evaluates is declared
    by no file of the repository (the comment beside it only assumes a map
    from user identifier to socket), so no code reads or writes this field. *)
Record World := {
  messages : list Message;             (* the Message collection, oldest insertion first *)
  users : list User;                   (* the User collection *)
  onlineUsers : string -> option nat;  (* who is connected: userId -> socket *)
  rooms : list (nat * string);         (* room subscriptions of the sockets *)
  now : Z;                             (* Date.now() *)
  constructed : nat;                   (* documents constructed so far *)
  emailUser : string                   (* process.env.EMAIL_USER *)
}.

Definition withMessages (w : World) (ms : list Message) : World :=
  {| messages := ms; users := users w; onlineUsers := onlineUsers w;
     rooms := rooms w; now := now w; constructed := constructed w;
     emailUser := emailUser w |}.

Definition withRooms (w : World) (rs : list (nat * string)) : World :=
  {| messages := messages w; users := users w; onlineUsers := onlineUsers w;
     rooms := rs; now := now w; constructed := constructed w;
     emailUser := emailUser w |}.

Definition withConstructed (w : World) (n : nat) : World :=
  {| messages := messages w; users := users w; onlineUsers := onlineUsers w;
     rooms := rooms w; now := now w; constructed := n;
     emailUser := emailUser w |}.

(** How the collaborators answer during one run of a listener: whether the
    database accepts the command it is sent, whether the transporter delivers
    the mail. *)
Record Answers := {
  storeAccepts : bool;
  mailDelivers : bool
}.

(** One run of an [async] function: the world it leaves, what it did, and
    whether its promise is fulfilled ([inr]) or rejected ([inl]). *)
Record Run (A : Type) := mkRun {
  world : World;
  trace : list Effect;
  outcome : Error + A
}.
Arguments mkRun {A} _ _ _.
Arguments world {A} _.
Arguments trace {A} _.
Arguments outcome {A} _.

Definition Async (A : Type) : Type := World -> Run A.

Definition rejected {A} (o : Error + A) : bool :=
  match o with
  | inl _ => true
  | inr _ => false
  end.

Definition ret {A} (a : A) : Async A := fun w => mkRun w [] (inr a).

Definition throw {A} (e : Error) : Async A := fun w => mkRun w [] (inl e).

(** [await]: a rejected promise ends the function, keeping what was done. *)
Definition bind {A B} (m : Async A) (f : A -> Async B) : Async B :=
  fun w =>
    let r := m w in
    match outcome r with
    | inl e => mkRun (world r) (trace r) (inl e)
    | inr a =>
        let r' := f a (world r) in
        mkRun (world r') (trace r ++ trace r') (outcome r')
    end.

Declare Scope async_scope.
Delimit Scope async_scope with async.
Notation "x <- c1 ;; c2" := (bind c1 (fun x => c2))
  (at level 61, c1 at next level, right associativity) : async_scope.
Notation "c1 ;; c2" := (bind c1 (fun _ => c2))
  (at level 61, right associativity) : async_scope.
Open Scope async_scope.

Definition perform (e : Effect) : Async unit := fun w => mkRun w [e] (inr tt).

(** Events and mails are the fan-out of a send. *)
Definition isFanout (e : Effect) : bool :=
  match e with
  | Emit _ _ _ | SendMail _ => true
  | _ => false
  end.

Definition isEmit (e : Effect) : bool :=
  match e with
  | Emit _ _ _ => true
  | _ => false
  end.

Definition isMail (e : Effect) : bool :=
  match e with
  | SendMail _ => true
  | _ => false
  end.

Definition fanout (t : list Effect) : list Effect := filter isFanout t.
Definition mails (t : list Effect) : list Effect := filter isMail t.
Definition emits (t : list Effect) : list Effect := filter isEmit t.

(** ** The models, the mail gateway and the listeners *)

Section Chat.

Variable odm : Mongoose.

(** [new Message({ sender: senderId, receiver: receiverId, text })]: the
    document gets a fresh [_id] and the clock as its [timestamp]. *)
Definition draftAt (w : World) (senderId receiverId text : string) : Draft :=
  {| draft_id := newObjectId odm (constructed w);
     draft_sender := senderId;
     draft_receiver := receiverId;
     draft_text := text;
     draft_timestamp := now w |}.

Definition newMessage (senderId receiverId text : string) : Async Draft :=
  fun w =>
    mkRun (withConstructed w (S (constructed w))) []
      (inr (draftAt w senderId receiverId text)).

(** Validation against [MessageSchema]: both identifiers must cast to an
    [ObjectId], and a required [String] must not be empty. *)
Definition validate (d : Draft) : option Message :=
  match castObjectId odm (draft_sender d), castObjectId odm (draft_receiver d) with
  | Some s, Some r =>
      if String.eqb (draft_text d) EmptyString then None
      else Some {| _id := draft_id d; sender := s; receiver := r;
                   text := draft_text d; timestamp := draft_timestamp d;
                   read := None |}
  | _, _ => None
  end.

(** [message.save()]: validation first; only a valid document is sent to the
    database, which accepts it or not. *)
Definition save (a : Answers) (d : Draft) : Async Message :=
  match validate d with
  | None => throw ValidationError
  | Some m =>
      perform (Insert m) ;;
      if storeAccepts a
      then fun w => mkRun (withMessages w (messages w ++ [m])) [] (inr m)
      else throw PersistenceError
  end.

Definition hasId (oid : string) (m : Message) : bool := String.eqb (_id m) oid.

(** The update [{ read: true }] on one document: [read] is not a path of the
    schema, so a strict schema drops it. *)
Definition applyRead (m : Message) : Message :=
  if strict odm then m else withRead m.

Fixpoint updateFirst (oid : string) (ms : list Message) : list Message :=
  match ms with
  | [] => []
  | m :: ms' =>
      if hasId oid m then applyRead m :: ms' else m :: updateFirst oid ms'
  end.

(** [Message.findByIdAndUpdate(messageId, { read: true })]: resolves to the
    document found, or to [null]. *)
Definition findByIdAndUpdate (a : Answers) (messageId : string)
  : Async (option Message) :=
  match castObjectId odm messageId with
  | None => throw CastError
  | Some oid =>
      perform (Update oid) ;;
      if storeAccepts a
      then fun w => mkRun (withMessages w (updateFirst oid (messages w))) []
                      (inr (find (hasId oid) (messages w)))
      else throw PersistenceError
  end.

(** [User.findById(receiverId)] *)
Definition User_findById (id : string) : Async (option User) :=
  match castObjectId odm id with
  | None => throw CastError
  | Some oid =>
      fun w => mkRun w [] (inr (find (fun u => String.eqb (user_id u) oid) (users w)))
  end.

Definition emit (target : Target) (event : string) (payload : Payload)
  : Async unit :=
  perform (Emit target event payload).

(** [socket.join(roomId)]: the rooms of a socket are a set. *)
Definition subscribed (socket : nat) (room : string) (rs : list (nat * string))
  : bool :=
  existsb (fun sr => Nat.eqb (fst sr) socket && String.eqb (snd sr) room) rs.

Definition socket_join (socket : nat) (room : string) : Async unit :=
  fun w =>
    mkRun (if subscribed socket room (rooms w) then w
           else withRooms w (rooms w ++ [(socket, room)]))
      [Join socket room] (inr tt).

Definition dquote : string := String (ascii_of_nat 34) EmptyString.
Definition newline : string := String (ascii_of_nat 10) EmptyString.

(** [transporter.sendMail(mailOptions)] *)
Definition sendMail (a : Answers) (mailOptions : Mail) : Async unit :=
  perform (SendMail mailOptions) ;;
  if mailDelivers a then ret tt else throw MailError.

(** The template [`You have a new message: "${message}"\n\nLogin to reply.`] *)
Definition notificationText (message : string) : string :=
  "You have a new message: " ++ dquote ++ message ++ dquote
    ++ newline ++ newline ++ "Login to reply.".

(** [async function sendEmailNotification(to, message)] *)
Definition sendEmailNotification (a : Answers) (to message : string)
  : Async unit :=
  fun w =>
    let mailOptions :=
      {| mail_from := emailUser w;
         mail_to := to;
         mail_subject := "New Message Notification";
         mail_text := notificationText message |} in
    sendMail a mailOptions w.

(** First connection handler: [socket.on("joinRoom", ...)] *)
Definition joinRoom (socket : nat) (senderId receiverId : string) : Async unit :=
  let roomId := roomId senderId receiverId in
  socket_join socket roomId.

(** First connection handler: [socket.on("sendMessage", ...)] *)
Definition sendMessage_first (a : Answers) (senderId receiverId text : string)
  : Async unit :=
  let roomId := roomId senderId receiverId in
  message <- newMessage senderId receiverId text ;;
  saved <- save a message ;;
  emit (ToRoom roomId) "receiveMessage" (OfMessage saved).

(** [onlineUsers[receiverId]] in the second connection handler.  No
    [onlineUsers] is declared, in this file or in any other, so evaluating
    the identifier throws a [ReferenceError]: the [async] listener is
    rejected there and the statements after it are never run. *)
Definition readOnlineUsers (receiverId : string) : Async (option nat) :=
  throw ReferenceError.

(** Second connection handler: [socket.on("sendMessage", ...)] *)
Definition sendMessage_second (a : Answers) (senderId receiverId text : string)
  : Async unit :=
  message <- newMessage senderId receiverId text ;;
  saved <- save a message ;;
  receiverSocket <- readOnlineUsers receiverId ;;
  match receiverSocket with
  | None =>
      receiver <- User_findById receiverId ;;
      match receiver with
      | Some u => sendEmailNotification a (email u) text
      | None => ret tt
      end
  | Some _ => ret tt
  end ;;
  match receiverSocket with
  | Some _ => emit (ToRoom receiverId) "receiveMessage" (OfMessage saved)
  | None => ret tt
  end.

(** [socket.on("markAsRead", ...)], the same text in both connection
    handlers. *)
Definition markAsRead (a : Answers) (messageId : string) : Async unit :=
  _ <- findByIdAndUpdate a messageId ;;
  emit ToAll "messageRead" (OfMessageId messageId).

(** ** Event dispatch

    Both [io.on("connection", ...)] callbacks run for every socket, so a
    socket carries two listeners for [sendMessage] and two for [markAsRead].
    An event calls its listeners in the order of registration; a rejected
    listener does not stop the next one.  A listener is run to its end
    before the next one starts: in Node the two would interleave at their
    [await]s, which changes the order of the effects of different listeners
    in [done], not which effects occur nor which documents are stored. *)
Record Dispatched := mkDispatched {
  after : World;
  done : list Effect;
  settled : list (Error + unit)
}.

Fixpoint dispatch (listeners : list (Async unit)) (w : World) : Dispatched :=
  match listeners with
  | [] => mkDispatched w [] []
  | l :: ls =>
      let r := l w in
      let d := dispatch ls (world r) in
      mkDispatched (after d) (trace r ++ done d) (outcome r :: settled d)
  end.

Definition on_sendMessage (a1 a2 : Answers) (senderId receiverId text : string)
  : World -> Dispatched :=
  dispatch [sendMessage_first a1 senderId receiverId text;
            sendMessage_second a2 senderId receiverId text].

Definition on_markAsRead (a1 a2 : Answers) (messageId : string)
  : World -> Dispatched :=
  dispatch [markAsRead a1 messageId; markAsRead a2 messageId].

(** ** [GET /api/chat/:userId] *)

(** The [$or] filter: messages from one of the two users to the other. *)
Definition between (me other : string) (m : Message) : bool :=
  (String.eqb (sender m) me && String.eqb (receiver m) other)
  || (String.eqb (sender m) other && String.eqb (receiver m) me).

(** [.sort({ timestamp: 1 })] *)
Fixpoint insertByTimestamp (m : Message) (ms : list Message) : list Message :=
  match ms with
  | [] => [m]
  | m' :: ms' =>
      if (timestamp m <=? timestamp m')%Z then m :: m' :: ms'
      else m' :: insertByTimestamp m ms'
  end.

Definition sortByTimestamp (ms : list Message) : list Message :=
  fold_right insertByTimestamp [] ms.

(** The route after [authenticate] has set [req.userId]; [paramId] is
    [req.params.userId].  It answers [{ success: true, messages }]. *)
Definition chatHistory (userId paramId : string) : Async (list Message) :=
  match castObjectId odm userId, castObjectId odm paramId with
  | Some me, Some other =>
      fun w => mkRun w [] (inr (sortByTimestamp (filter (between me other) (messages w))))
  | _, _ => throw CastError
  end.

(** The handler of the route with a database that may refuse the query:
    the identifiers are cast first, then the query is sent; the handler has
    no [try], so a refusal rejects it and no answer is written. *)
Definition chatRoute (a : Answers) (userId paramId : string)
  : Async (list Message) :=
  found <- chatHistory userId paramId ;;
  if storeAccepts a then ret found else throw PersistenceError.

End Chat.

(** ** Predicates of the statements *)

(** A run that failed as a whole: its promise is rejected, the Message
    collection is as before, and nothing was emitted or mailed. *)
Definition failedWhole {A} (w : World) (r : Run A) : Prop :=
  rejected (outcome r) = true /\
  messages (world r) = messages w /\
  fanout (trace r) = [].

(** A message of the conversation of two users: one of them sent it to the
    other. *)
Definition inConversation (me other : string) (m : Message) : Prop :=
  (sender m = me /\ receiver m = other) \/ (sender m = other /\ receiver m = me).

(** Chronological order of a list of messages. *)
Definition notAfter (x y : Message) : Prop := (timestamp x <= timestamp y)%Z.

(** ** A concrete mapper

    The usual reading of an [ObjectId]: 24 hexadecimal digits, kept in lower
    case; the generator here counts in hexadecimal.  [bson] is the default,
    strict, setting; [bsonLoose] is a schema with [strict: false]. *)

Definition isHexDigit (c : ascii) : bool :=
  let n := nat_of_ascii c in
  (((48 <=? n) && (n <=? 57)) || ((97 <=? n) && (n <=? 102))
   || ((65 <=? n) && (n <=? 70)))%nat.

Definition lowerHex (c : ascii) : ascii :=
  let n := nat_of_ascii c in
  if ((65 <=? n) && (n <=? 70))%nat then ascii_of_nat (n + 32) else c.

Definition hexObjectId (s : string) : option string :=
  if (String.length s =? 24)%nat && forallb isHexDigit (list_ascii_of_string s)
  then Some (string_of_list_ascii (map lowerHex (list_ascii_of_string s)))
  else None.

Definition hexDigit (n : nat) : ascii :=
  if (n <? 10)%nat then ascii_of_nat (48 + n) else ascii_of_nat (87 + n).

Fixpoint hexOfWidth (width n : nat) (acc : string) : string :=
  match width with
  | O => acc
  | S width' => hexOfWidth width' (n / 16) (String (hexDigit (n mod 16)) acc)
  end.

Definition countingObjectId (n : nat) : string := hexOfWidth 24 n EmptyString.

Definition bson : Mongoose :=
  {| castObjectId := hexObjectId;
     newObjectId := countingObjectId;
     strict := true;
     castObjectId_empty := eq_refl |}.

Definition bsonLoose : Mongoose :=
  {| castObjectId := hexObjectId;
     newObjectId := countingObjectId;
     strict := false;
     castObjectId_empty := eq_refl |}.

(** ** A small world for the examples: two users, nobody connected *)

Definition U1 : string := "aaaaaaaaaaaaaaaaaaaaaaa1".
Definition U2 : string := "aaaaaaaaaaaaaaaaaaaaaaa2".

Definition quiet : World :=
  {| messages := [];
     users := [ {| user_id := U1; username := "ada"; email := "ada@example.org" |};
                {| user_id := U2; username := "bob"; email := "bob@example.org" |} ];
     onlineUsers := fun _ => None;
     rooms := [];
     now := 1000;
     constructed := 0;
     emailUser := "thrift@example.org" |}.

Definition allFine : Answers := {| storeAccepts := true; mailDelivers := true |}.
Definition storeDown : Answers := {| storeAccepts := false; mailDelivers := true |}.

(** The same world with one stored, unread message from [U1] to [U2]. *)
Definition oneUnread : World :=
  withMessages quiet
    [ {| _id := countingObjectId 0; sender := U1; receiver := U2;
         text := "hi"; timestamp := 900; read := None |} ].

(** Three messages of the conversation of [U1] and [U2], stored out of order,
    and one message of [U1] to themselves. *)
Definition shuffled : World :=
  withMessages quiet
    [ {| _id := countingObjectId 0; sender := U1; receiver := U2;
         text := "third"; timestamp := 30; read := None |};
      {| _id := countingObjectId 1; sender := U2; receiver := U1;
         text := "first"; timestamp := 10; read := None |};
      {| _id := countingObjectId 2; sender := U1; receiver := U1;
         text := "note"; timestamp := 15; read := None |};
      {| _id := countingObjectId 3; sender := U1; receiver := U2;
         text := "second"; timestamp := 20; read := None |} ].

(** ** Further predicates on keys and documents *)

(** An identifier without the dash that [join("-")] inserts. *)
Fixpoint dashFree (s : string) : bool :=
  match s with
  | EmptyString => true
  | String c s' => negb (Ascii.eqb c "-") && dashFree s'
  end.

(** Two versions of a stored message: the same document, and a [read] flag
    that was truthy is still truthy. *)
Definition sameButRead (m m' : Message) : Prop :=
  _id m' = _id m /\ sender m' = sender m /\ receiver m' = receiver m /\
  text m' = text m /\ timestamp m' = timestamp m /\
  (isRead m = true -> isRead m' = true).

(** The documents one listener and the two listeners add to the collection. *)
Definition storedBy (odm : Mongoose) (a : Answers) (d : Draft) : list Message :=
  match validate odm d with
  | Some m => if storeAccepts a then [m] else []
  | None => []
  end.

(** ** HTTP: the [authenticate] middleware and the chat route behind it *)

Module JsString.

(** [s.split(sep)] for a separator of one character: the pieces between the
    separators, empty pieces included; a string without separator is its
    own single piece. *)
Fixpoint split (sep : ascii) (s : string) : list string :=
  match s with
  | EmptyString => [EmptyString]
  | String c s' =>
      if Ascii.eqb c sep then EmptyString :: split sep s'
      else match split sep s' with
           | piece :: pieces => String c piece :: pieces
           | [] => [String c EmptyString]
           end
  end.

End JsString.

(** [res.status(status).json({ success, message })] *)
Record Reply := {
  reply_status : nat;
  reply_success : bool;
  reply_message : string
}.

Definition unauthorized : Reply :=
  {| reply_status := 401; reply_success := false; reply_message := "Unauthorized" |}.

Definition invalidToken : Reply :=
  {| reply_status := 401; reply_success := false; reply_message := "Invalid token" |}.

(** What a client of [GET /api/chat/:userId] gets: a refusal of the
    middleware, the messages, or nothing when the [async] handler is rejected
    (it has no [try]). *)
Inductive ChatAnswer :=
| Refused (r : Reply)
| History (found : list Message)
| Unanswered (e : Error).

Section Http.

Variable odm : Mongoose.

(** [jwt.verify(t, process.env.JWT_SECRET).userId]: the user identifier in
    the payload of a token that verifies, [None] when [jwt.verify] throws.
    The tokens of this server are signed by [/api/login] with [{ userId }]. *)
Variable jwt_verify : string -> option string.

(** [const authenticate = (req, res, next) => ...]; [authorization] is
    [req.headers.authorization].  [inr userId] stands for [req.userId] being
    set and [next()] called; [jwt.verify(undefined, ...)] throws. *)
Definition authenticate (authorization : option string) : Reply + string :=
  match authorization with
  | None => inl unauthorized
  | Some token =>
      if String.eqb token EmptyString then inl unauthorized
      else
        match nth_error (JsString.split " " token) 1 with
        | Some t =>
            match jwt_verify t with
            | Some userId => inr userId
            | None => inl invalidToken
            end
        | None => inl invalidToken
        end
  end.

(** [app.get("/api/chat/:userId", authenticate, async (req, res) => ...)] *)
Definition getChat (authorization : option string) (paramId : string) (w : World)
  : ChatAnswer :=
  match authenticate authorization with
  | inl r => Refused r
  | inr userId =>
      match outcome (chatHistory odm userId paramId w) with
      | inr found => History found
      | inl e => Unanswered e
      end
  end.

End Http.

(** A string without a space. *)
Fixpoint spaceFree (s : string) : bool :=
  match s with
  | EmptyString => true
  | String c s' => negb (Ascii.eqb c " ") && spaceFree s'
  end.

(** A verifier for the examples: the token is the user identifier behind the
    prefix ["tok:"]. *)
Definition prefixVerify (t : string) : option string :=
  if String.prefix "tok:" t then Some (String.substring 4 (String.length t - 4) t)
  else None.

(** ** Posts: the file filter, the clean-up helpers and [POST /posts] *)

Module JsText.

(** [hay.includes(needle)] *)
Fixpoint includes (needle hay : string) : bool :=
  String.prefix needle hay ||
  match hay with
  | EmptyString => false
  | String _ hay' => includes needle hay'
  end.

(** [list.includes(x)] on an array of strings *)
Definition member (x : string) (l : list string) : bool :=
  existsb (String.eqb x) l.

End JsText.

(** A file as Multer hands it over. *)
Record File := {
  originalname : string;
  mimetype : string;
  path : string
}.

(** A thrown value: [name] and [message] of the error, and its [code] when
    it is an instance of [multer.MulterError]. *)
Record JsError := {
  error_name : string;
  error_message : string;
  multer_code : option string
}.

(** [new Error(message)] *)
Definition newError (message : string) : JsError :=
  {| error_name := "Error"; error_message := message; multer_code := None |}.

Definition allowedTypes : list string :=
  ["image/jpeg"; "image/jpg"; "image/png"; "image/gif"; "video/mp4"].

(** [const fileFilter = (req, file, cb) => ...]: [cb(null, true)] is
    [inr true], [cb(error)] is [inl error]. *)
Definition fileFilter (file : File) : JsError + bool :=
  if JsText.member (mimetype file) allowedTypes then inr true
  else inl (newError ("Invalid file type: " ++ mimetype file
                        ++ ". Only JPEG, PNG, GIF and MP4 are allowed.")).

(** [res.status(status).json({ success: false, message, error })] *)
Record ErrorReply := {
  er_status : nat;
  er_message : string;
  er_error : option string
}.

(** The error-handling middleware [router.use((error, req, res, next) => ...)];
    [development] is [process.env.NODE_ENV === 'development']. *)
Definition routerError (development : bool) (error : JsError) : ErrorReply :=
  match multer_code error with
  | Some code =>
      let message :=
        if String.eqb code "LIMIT_FILE_SIZE"
        then "File is too large. Maximum size is 10MB"
        else if String.eqb code "LIMIT_FILE_COUNT"
        then "Too many files. Maximum is 10 files"
        else if String.eqb code "LIMIT_UNEXPECTED_FILE"
        then "Unexpected field name in file upload"
        else "File upload error" in
      {| er_status := 400; er_message := message;
         er_error := if development then Some (error_message error) else None |}
  | None =>
      {| er_status := 500; er_message := "Internal server error";
         er_error := if development then Some (error_message error) else None |}
  end.

(** What [cloudinary.uploader.upload] resolves to. *)
Record UploadResult := {
  secure_url : string;
  resource_type : string;
  public_id : string
}.

(** An entry of [mediaUrls], and of [media] in [postSchema]. *)
Record Media := {
  media_url : string;
  media_type : string;
  media_publicId : string
}.

(** [new Post({ content: req.body.content, media: mediaUrls, user: req.userId })] *)
Record Post := {
  post_content : option string;
  post_media : list Media;
  post_user : string
}.

(** What the route works on: the Post collection, the resources held by
    Cloudinary (by public id) and the temporary files on disk (by path). *)
Record Storage := {
  posts : list Post;
  cloud : list string;
  disk : list string
}.

(** How the services answer: each call resolves or rejects. *)
Record Services := {
  cloudinary_upload : File -> JsError + UploadResult;
  cloudinary_destroy : string -> bool;
  fs_unlink : string -> bool;
  post_save : Post -> option JsError;
  post_populate : Post -> option JsError
}.

(** The calls made to the services, in order. *)
Inductive Call :=
| CallUpload (file : File)
| CallDestroy (publicId : string)
| CallUnlink (filePath : string)
| CallSave (post : Post)
| CallPopulate (post : Post).

(** The answer of [POST /posts]. *)
Record PostReply := {
  pr_status : nat;
  pr_success : bool;
  pr_message : string;
  pr_error : option string;
  pr_post : option Post
}.

Definition without (x : string) (l : list string) : list string :=
  filter (fun y => negb (String.eqb y x)) l.

Section Posts.

Variable sv : Services.

(** [async function cleanupFiles(files)]: a failed [unlink] is logged and the
    loop goes on. *)
Fixpoint unlinkEach (files : list File) (st : Storage) : Storage * list Call :=
  match files with
  | [] => (st, [])
  | file :: rest =>
      let st1 :=
        if fs_unlink sv (path file)
        then {| posts := posts st; cloud := cloud st;
                disk := without (path file) (disk st) |}
        else st in
      let (st2, calls) := unlinkEach rest st1 in
      (st2, CallUnlink (path file) :: calls)
  end.

Definition cleanupFiles (files : option (list File)) (st : Storage)
  : Storage * list Call :=
  match files with
  | None => (st, [])
  | Some fs => unlinkEach fs st
  end.

(** [async function cleanupCloudinaryUploads(mediaUrls)]: a failed [destroy]
    is logged and the loop goes on. *)
Fixpoint cleanupCloudinaryUploads (mediaUrls : list Media) (st : Storage)
  : Storage * list Call :=
  match mediaUrls with
  | [] => (st, [])
  | media :: rest =>
      let st1 :=
        if cloudinary_destroy sv (media_publicId media)
        then {| posts := posts st;
                cloud := without (media_publicId media) (cloud st);
                disk := disk st |}
        else st in
      let (st2, calls) := cleanupCloudinaryUploads rest st1 in
      (st2, CallDestroy (media_publicId media) :: calls)
  end.

(** [mediaUrls.push({ url, type, publicId })] *)
Definition mediaOf (result : UploadResult) : Media :=
  {| media_url := secure_url result;
     media_type := if String.eqb (resource_type result) "video"
                   then "video" else "image";
     media_publicId := public_id result |}.

(** The upload loop of the route.  It ends with the [mediaUrls] gathered, or
    with the error thrown by the inner [catch] after it has cleaned up;
    [mediaUrls] is the one array the outer [catch] sees afterwards. *)
Fixpoint uploadEach (files : list File) (mediaUrls : list Media) (st : Storage)
  : Storage * list Call * (JsError + unit) * list Media :=
  match files with
  | [] => (st, [], inr tt, mediaUrls)
  | file :: rest =>
      match cloudinary_upload sv file with
      | inr result =>
          let st1 := {| posts := posts st;
                        cloud := (cloud st ++ [public_id result])%list;
                        disk := disk st |} in
          let '(st2, calls, res, urls) :=
            uploadEach rest (mediaUrls ++ [mediaOf result])%list st1 in
          (st2, CallUpload file :: calls, res, urls)
      | inl uploadError =>
          let (st1, calls) := cleanupCloudinaryUploads mediaUrls st in
          (st1, CallUpload file :: calls,
           inl (newError ("Failed to upload " ++ originalname file ++ ": "
                            ++ error_message uploadError)),
           mediaUrls)
      end
  end.

(** The status and message chosen in the outer [catch]. *)
Definition failureReply (development : bool) (error : JsError) : PostReply :=
  let (statusCode, errorMessage) :=
    if JsText.includes "must contain either content or media" (error_message error)
    then (400, error_message error)
    else if String.eqb (error_name error) "ValidationError"
    then (400, "Invalid post data provided")
    else (500, "An unexpected error occurred while creating the post") in
  {| pr_status := statusCode; pr_success := false; pr_message := errorMessage;
     pr_error := if development then Some (error_message error) else None;
     pr_post := None |}.

(** The outer [catch (error)] block. *)
Definition catchBlock (development : bool) (files : option (list File))
  (mediaUrls : list Media) (error : JsError) (st : Storage) (calls : list Call)
  : Storage * list Call * PostReply :=
  let (st1, calls1) := cleanupCloudinaryUploads mediaUrls st in
  let (st2, calls2) := cleanupFiles files st1 in
  (st2, (calls ++ calls1 ++ calls2)%list, failureReply development error).

Definition falsy (content : option string) : bool :=
  match content with
  | None => true
  | Some s => String.eqb s EmptyString
  end.

Definition noFiles (files : option (list File)) : bool :=
  match files with
  | None => true
  | Some fs => Nat.eqb (List.length fs) 0
  end.

(** The handler of [router.post('/posts', authenticate, upload.array('media', 10), ...)]
    once the two middlewares have run: [userId] is [req.userId], [content] is
    [req.body.content], [files] is [req.files]. *)
Definition createPost (development : bool) (userId : string)
  (content : option string) (files : option (list File)) (st : Storage)
  : Storage * list Call * PostReply :=
  if falsy content && noFiles files
  then catchBlock development files []
         (newError "Post must contain either content or media files") st []
  else
    let '(st1, calls1, res, mediaUrls) :=
      uploadEach (match files with Some fs => fs | None => [] end) [] st in
    match res with
    | inl error => catchBlock development files mediaUrls error st1 calls1
    | inr _ =>
        let post := {| post_content := content; post_media := mediaUrls;
                       post_user := userId |} in
        match post_save sv post with
        | Some error =>
            catchBlock development files mediaUrls error st1
              (calls1 ++ [CallSave post])%list
        | None =>
            let st2 := {| posts := (posts st1 ++ [post])%list; cloud := cloud st1;
                          disk := disk st1 |} in
            let (st3, calls3) := cleanupFiles files st2 in
            match post_populate sv post with
            | Some error =>
                catchBlock development files mediaUrls error st3
                  (calls1 ++ [CallSave post] ++ calls3 ++ [CallPopulate post])%list
            | None =>
                (st3, (calls1 ++ [CallSave post] ++ calls3 ++ [CallPopulate post])%list,
                 {| pr_status := 201; pr_success := true;
                    pr_message := "Post created successfully";
                    pr_error := None; pr_post := Some post |})
            end
        end
    end.

End Posts.

(** The calls of the two clean-up loops. *)
Definition destroyCalls (urls : list Media) : list Call :=
  map (fun m => CallDestroy (media_publicId m)) urls.

Definition unlinkCalls (files : list File) : list Call :=
  map (fun f => CallUnlink (path f)) files.

(** The files of a request, none when [req.files] is undefined. *)
Definition filesOf (files : option (list File)) : list File :=
  match files with
  | Some fs => fs
  | None => []
  end.

(** Files and services for the examples: uploads succeed except for the file
    named [broken.gif]; everything else answers. *)
Definition photo : File :=
  {| originalname := "a.png"; mimetype := "image/png"; path := "uploads/media-1.png" |}.
Definition clip : File :=
  {| originalname := "b.mp4"; mimetype := "video/mp4"; path := "uploads/media-2.mp4" |}.
Definition brokenGif : File :=
  {| originalname := "broken.gif"; mimetype := "image/gif"; path := "uploads/media-3.gif" |}.
Definition script : File :=
  {| originalname := "x.js"; mimetype := "text/javascript"; path := "uploads/media-4.js" |}.

Definition fairServices : Services :=
  {| cloudinary_upload := fun file =>
       if String.eqb (originalname file) "broken.gif"
       then inl (newError "Request Timeout")
       else inr {| secure_url := "https://res.cloudinary.com/" ++ originalname file;
                   resource_type := if String.eqb (mimetype file) "video/mp4"
                                    then "video" else "image";
                   public_id := "marketplace_posts/" ++ originalname file |};
     cloudinary_destroy := fun _ => true;
     fs_unlink := fun _ => true;
     post_save := fun _ => None;
     post_populate := fun _ => None |}.

(** The same services with a [populate] that rejects. *)
Definition noPopulate : Services :=
  {| cloudinary_upload := cloudinary_upload fairServices;
     cloudinary_destroy := fun _ => true;
     fs_unlink := fun _ => true;
     post_save := fun _ => None;
     post_populate := fun _ => Some (newError "connection closed") |}.

Definition twoOnDisk : Storage :=
  {| posts := []; cloud := ["marketplace_posts/old.png"];
     disk := ["uploads/media-1.png"; "uploads/media-2.mp4"; "uploads/media-3.gif"] |}.

(** ** Accounts: [POST /api/register] and [POST /api/login] *)

(** A document of the User collection with its [password] field, the hash. *)
Record Account := {
  account : User;
  account_password : string
}.

(** The User collection and the number of User documents constructed. *)
Record Accounts := {
  accounts : list Account;
  made : nat
}.

(** [bcrypt] and [jsonwebtoken] as the routes use them: [bcrypt_hash p salt]
    is [bcrypt.hash(p, 10)] with the salt it drew, [bcrypt_compare p h] is
    [bcrypt.compare(p, h)], and [jwt_sign userId time] is
    [jwt.sign({ userId }, process.env.JWT_SECRET, { expiresIn: "12h" })] at
    that time.  A password matches each of its own hashes. *)
Record Crypto := {
  bcrypt_hash : string -> nat -> string;
  bcrypt_compare : string -> string -> bool;
  jwt_sign : string -> Z -> string;
  bcrypt_sound : forall (p : string) (salt : nat),
      bcrypt_compare p (bcrypt_hash p salt) = true
}.

(** How the surroundings answer during one request: whether the queries and
    the save go through, which salt [bcrypt] draws, what time it is, and the
    message of the error when something is thrown. *)
Record AuthAnswers := {
  queryAnswers : bool;
  saveAnswers : bool;
  salt : nat;
  clock : Z;
  thrown : string
}.

(** [res.status(status).json({ success, message, error })] *)
Record AuthReply := {
  ar_status : nat;
  ar_success : bool;
  ar_message : string;
  ar_error : option string
}.

(** What a client of [/api/login] gets; the handler has no [try], so a
    rejected query leaves the request unanswered. *)
Inductive LoginAnswer :=
| LoginRefused (r : AuthReply)
| LoggedIn (token userId userEmail : string) (name : option string)
| LoginUnanswered.

Section AccountsRoutes.

Variable odm : Mongoose.
Variable crypto : Crypto.

(** [User.findOne({ email })] *)
Definition findByEmail (e : string) (s : Accounts) : option Account :=
  find (fun acc => String.eqb (email (account acc)) e) (accounts s).

Definition fieldValue (field : option string) : string :=
  match field with
  | Some s => s
  | None => EmptyString
  end.

(** [app.post("/api/register", ...)]; the three arguments are the fields of
    [req.body], [None] when absent. *)
Definition register (a : AuthAnswers)
  (usernameField emailField passwordField : option string) (s : Accounts)
  : Accounts * AuthReply :=
  let serverError :=
    {| ar_status := 500; ar_success := false; ar_message := "Server error";
       ar_error := Some (thrown a) |} in
  if falsy usernameField || falsy emailField || falsy passwordField
  then (s, {| ar_status := 400; ar_success := false;
              ar_message := "All fields are required."; ar_error := None |})
  else if negb (queryAnswers a) then (s, serverError)
  else
    match findByEmail (fieldValue emailField) s with
    | Some _ =>
        (s, {| ar_status := 400; ar_success := false;
               ar_message := "Email already in use."; ar_error := None |})
    | None =>
        let hashedPassword :=
          bcrypt_hash crypto (fieldValue passwordField) (salt a) in
        let user :=
          {| account := {| user_id := newObjectId odm (made s);
                           username := fieldValue usernameField;
                           email := fieldValue emailField |};
             account_password := hashedPassword |} in
        if saveAnswers a
        then ({| accounts := accounts s ++ [user]; made := S (made s) |},
              {| ar_status := 200; ar_success := true;
                 ar_message := "User registered successfully!";
                 ar_error := None |})
        else ({| accounts := accounts s; made := S (made s) |}, serverError)
    end.

(** [app.post("/api/login", ...)] with the two fields of [req.body] given as
    strings.  The answer names the user by [user.name], a field the schema
    does not have. *)
Definition login (a : AuthAnswers) (emailField passwordField : string) (s : Accounts)
  : LoginAnswer :=
  if negb (queryAnswers a) then LoginUnanswered
  else
    match findByEmail emailField s with
    | None =>
        LoginRefused {| ar_status := 400; ar_success := false;
                        ar_message := "User not found"; ar_error := None |}
    | Some user =>
        if bcrypt_compare crypto passwordField (account_password user)
        then LoggedIn (jwt_sign crypto (user_id (account user)) (clock a))
               (user_id (account user)) (email (account user)) None
        else LoginRefused {| ar_status := 400; ar_success := false;
                             ar_message := "Invalid password"; ar_error := None |}
    end.

End AccountsRoutes.

(** Crypto for the examples: the hash is the password itself, the token is
    the user identifier behind ["tok:"], which [prefixVerify] reads back. *)
Definition toyCrypto : Crypto :=
  {| bcrypt_hash := fun p _ => p;
     bcrypt_compare := fun p h => String.eqb p h;
     jwt_sign := fun userId _ => "tok:" ++ userId;
     bcrypt_sound := fun p _ => String.eqb_refl p |}.

Definition noAccounts : Accounts := {| accounts := []; made := 0 |}.

Definition online : AuthAnswers :=
  {| queryAnswers := true; saveAnswers := true; salt := 7; clock := 1000;
     thrown := EmptyString |}.

(** The addresses of the registered users. *)
Definition emails (s : Accounts) : list string :=
  map (fun acc => email (account acc)) (accounts s).

(** * Properties *)

(** ** The room key *)

(** The room key is the smaller identifier, a dash, the larger one. *)
Lemma roomId_unfold (a b : string) :
  roomId a b =
  match String.compare a b with
  | Gt => b ++ "-" ++ a
  | _ => a ++ "-" ++ b
  end.
Proof.
  unfold roomId, JsArray.sort, JsArray.join; simpl.
  unfold JsArray.SortCompare.
  destruct (String.compare a b); reflexivity.
Qed.

Example roomId_sorted_pair : roomId "u2" "u1" = "u1-u2".
Proof. reflexivity. Qed.

Lemma roomId_swap (a b : string) : roomId a b = roomId b a.
Proof.
  rewrite !roomId_unfold.
  rewrite (String.compare_antisym b a).
  destruct (String.compare a b) eqn:E; simpl; try reflexivity.
  apply String.compare_eq_iff in E. now subst.
Qed.

(** C10: the room key is not injective on unordered pairs once an identifier
    may contain the dash: two different pairs of non-empty identifiers get
    one room key, and [joinRoom] subscribes their sockets to one room. *)
Theorem roomId_not_injective :
  exists a b c d : string,
    a <> EmptyString /\ b <> EmptyString /\
    c <> EmptyString /\ d <> EmptyString /\
    ~ same_pair a b c d /\
    roomId a b = roomId c d /\
    forall (s1 s2 : nat) (w : World),
    exists room : string,
      trace (joinRoom s1 a b w) = [Join s1 room] /\
      trace (joinRoom s2 c d w) = [Join s2 room].
Proof.
  exists "a-b", "c", "a", "b-c".
  repeat split; try discriminate.
  - intros [[H _] | [H _]]; discriminate.
  - intros s1 s2 w. exists "a-b-c". split; reflexivity.
Qed.

(** ** [message.save()] *)

Section SaveFacts.

Variable odm : Mongoose.

Lemma validate_empty (d : Draft) :
  draft_sender d = EmptyString \/ draft_receiver d = EmptyString
  \/ draft_text d = EmptyString ->
  validate odm d = None.
Proof.
  unfold validate.
  intros [H | [H | H]]; rewrite H.
  - now rewrite castObjectId_empty.
  - rewrite castObjectId_empty. now destruct (castObjectId odm (draft_sender d)).
  - simpl.
    destruct (castObjectId odm (draft_sender d)); trivial.
    now destruct (castObjectId odm (draft_receiver d)).
Qed.

Lemma save_invalid (a : Answers) (d : Draft) (w : World) :
  validate odm d = None ->
  save odm a d w = mkRun w [] (inl ValidationError).
Proof. unfold save. now intros ->. Qed.

Lemma save_rejected (a : Answers) (d : Draft) (m : Message) (w : World) :
  validate odm d = Some m -> storeAccepts a = false ->
  save odm a d w = mkRun w [Insert m] (inl PersistenceError).
Proof. unfold save. now intros -> ->. Qed.

Lemma save_accepted (a : Answers) (d : Draft) (m : Message) (w : World) :
  validate odm d = Some m -> storeAccepts a = true ->
  save odm a d w = mkRun (withMessages w (messages w ++ [m])) [Insert m] (inr m).
Proof. unfold save. now intros -> ->. Qed.

(** [save] fails exactly when the document is invalid or the database does
    not accept it. *)
Lemma save_fails_iff (a : Answers) (d : Draft) (w : World) :
  (exists e, outcome (save odm a d w) = inl e) <->
  validate odm d = None \/ storeAccepts a = false.
Proof.
  destruct (validate odm d) as [m|] eqn:V; destruct (storeAccepts a) eqn:S.
  - rewrite (save_accepted _ _ _ _ V S); simpl. split.
    + intros [e H]; discriminate.
    + intros [H | H]; discriminate.
  - rewrite (save_rejected _ _ _ _ V S); simpl. split; eauto.
  - rewrite (save_invalid _ _ _ V); simpl. split; eauto.
  - rewrite (save_invalid _ _ _ V); simpl. split; eauto.
Qed.

(** A failed [save] leaves the collection as it was and has no fan-out. *)
Lemma save_failed_clean (a : Answers) (d : Draft) (w : World) (e : Error) :
  outcome (save odm a d w) = inl e ->
  world (save odm a d w) = w /\ fanout (trace (save odm a d w)) = [].
Proof.
  destruct (validate odm d) as [m|] eqn:V; destruct (storeAccepts a) eqn:S.
  - rewrite (save_accepted _ _ _ _ V S); discriminate.
  - rewrite (save_rejected _ _ _ _ V S); now split.
  - rewrite (save_invalid _ _ _ V); now split.
  - rewrite (save_invalid _ _ _ V); now split.
Qed.

End SaveFacts.

(** ** The [sendMessage] listeners when the message is not stored *)

Section SendFailure.

Variable odm : Mongoose.

Ltac listener :=
  unfold sendMessage_first, sendMessage_second, newMessage, bind; simpl.

Lemma first_after_failed_save (a : Answers) (s r t : string) (w : World) (e : Error) :
  let w1 := withConstructed w (S (constructed w)) in
  outcome (save odm a (draftAt odm w s r t) w1) = inl e ->
  sendMessage_first odm a s r t w =
  mkRun w1 (trace (save odm a (draftAt odm w s r t) w1)) (inl e).
Proof.
  intros w1 H. listener. fold w1.
  destruct (save_failed_clean odm a _ w1 e H) as [Hw _].
  rewrite H, Hw. reflexivity.
Qed.

Lemma second_after_failed_save (a : Answers) (s r t : string) (w : World) (e : Error) :
  let w1 := withConstructed w (S (constructed w)) in
  outcome (save odm a (draftAt odm w s r t) w1) = inl e ->
  sendMessage_second odm a s r t w =
  mkRun w1 (trace (save odm a (draftAt odm w s r t) w1)) (inl e).
Proof.
  intros w1 H. listener. fold w1.
  destruct (save_failed_clean odm a _ w1 e H) as [Hw _].
  rewrite H, Hw. reflexivity.
Qed.

Lemma first_save_fails (a : Answers) (s r t : string) (w : World) :
  let w1 := withConstructed w (S (constructed w)) in
  rejected (outcome (save odm a (draftAt odm w s r t) w1)) = true ->
  failedWhole w (sendMessage_first odm a s r t w).
Proof.
  intros w1 H.
  destruct (outcome (save odm a (draftAt odm w s r t) w1)) as [e|m] eqn:He;
    [|discriminate].
  rewrite (first_after_failed_save a s r t w e He).
  destruct (save_failed_clean odm a _ w1 e He) as [_ Hf].
  repeat split; assumption.
Qed.

Lemma second_save_fails (a : Answers) (s r t : string) (w : World) :
  let w1 := withConstructed w (S (constructed w)) in
  rejected (outcome (save odm a (draftAt odm w s r t) w1)) = true ->
  failedWhole w (sendMessage_second odm a s r t w).
Proof.
  intros w1 H.
  destruct (outcome (save odm a (draftAt odm w s r t) w1)) as [e|m] eqn:He;
    [|discriminate].
  rewrite (second_after_failed_save a s r t w e He).
  destruct (save_failed_clean odm a _ w1 e He) as [_ Hf].
  repeat split; assumption.
Qed.

Lemma first_invalid (a : Answers) (s r t : string) (w : World) :
  validate odm (draftAt odm w s r t) = None ->
  sendMessage_first odm a s r t w =
  mkRun (withConstructed w (S (constructed w))) [] (inl ValidationError).
Proof.
  intros V.
  rewrite (first_after_failed_save a s r t w ValidationError);
    now rewrite (save_invalid odm a _ _ V).
Qed.

Lemma second_invalid (a : Answers) (s r t : string) (w : World) :
  validate odm (draftAt odm w s r t) = None ->
  sendMessage_second odm a s r t w =
  mkRun (withConstructed w (S (constructed w))) [] (inl ValidationError).
Proof.
  intros V.
  rewrite (second_after_failed_save a s r t w ValidationError);
    now rewrite (save_invalid odm a _ _ V).
Qed.

(** C1: when [message.save()] fails in a [sendMessage] listener, be it by
    validation or because the database does not accept the write, that
    listener is rejected, the collection is unchanged and nothing is emitted
    or mailed; with both saves failing the event as a whole stores nothing
    and has no fan-out. *)
Theorem sendMessage_save_failure_atomic
  (a1 a2 : Answers) (senderId receiverId text : string) (w : World) :
  (forall w' w'' : World,
     rejected (outcome (save odm a1 (draftAt odm w' senderId receiverId text) w''))
     = true) ->
  (forall w' w'' : World,
     rejected (outcome (save odm a2 (draftAt odm w' senderId receiverId text) w''))
     = true) ->
  let both := on_sendMessage odm a1 a2 senderId receiverId text w in
  failedWhole w (sendMessage_first odm a1 senderId receiverId text w) /\
  failedWhole w (sendMessage_second odm a2 senderId receiverId text w) /\
  fanout (done both) = [] /\
  messages (after both) = messages w /\
  forallb rejected (settled both) = true.
Proof.
  intros H1 H2 both.
  pose proof (first_save_fails a1 senderId receiverId text w (H1 _ _)) as F.
  pose proof (second_save_fails a2 senderId receiverId text w (H2 _ _)) as S.
  split; [exact F|]. split; [exact S|].
  destruct F as (Fo & Fm & Ff).
  destruct (second_save_fails a2 senderId receiverId text
              (world (sendMessage_first odm a1 senderId receiverId text w))
              (H2 _ _))
    as (So & Sm & Sf).
  unfold both, on_sendMessage, dispatch; cbn [after done settled forallb].
  repeat split.
  - unfold fanout in *. rewrite filter_app, app_nil_r, Ff, Sf. reflexivity.
  - now rewrite Sm.
  - now rewrite Fo, So.
Qed.

(** C6: a [sendMessage] whose sender, receiver or text is empty is rejected
    by validation in both listeners before any command reaches the database:
    nothing is inserted, emitted or mailed, and the collection is unchanged. *)
Theorem sendMessage_empty_field_rejected
  (a1 a2 : Answers) (senderId receiverId text : string) (w : World) :
  senderId = EmptyString \/ receiverId = EmptyString \/ text = EmptyString ->
  let both := on_sendMessage odm a1 a2 senderId receiverId text w in
  done both = [] /\
  messages (after both) = messages w /\
  settled both = [inl ValidationError; inl ValidationError].
Proof.
  intros H both.
  assert (V : forall w', validate odm (draftAt odm w' senderId receiverId text) = None)
    by (intros w'; now apply validate_empty).
  unfold both, on_sendMessage, dispatch; cbn [after done settled].
  rewrite (first_invalid a1 _ _ _ w (V w)); cbn [world trace outcome].
  rewrite (second_invalid a2 _ _ _ _ (V _)); cbn [world trace outcome].
  repeat split.
Qed.

End SendFailure.

(** A database that is down, with two registered users. *)
Lemma sendMessage_save_failure_atomic_witness :
  rejected (outcome (save bson storeDown (draftAt bson quiet U1 U2 "hi") quiet))
  = true /\
  fanout (done (on_sendMessage bson storeDown storeDown U1 U2 "hi" quiet)) = [] /\
  messages (after (on_sendMessage bson storeDown storeDown U1 U2 "hi" quiet)) = [].
Proof.
  split; [reflexivity|].
  destruct (sendMessage_save_failure_atomic bson storeDown storeDown U1 U2 "hi"
              quiet (fun _ _ => eq_refl) (fun _ _ => eq_refl))
    as (_ & _ & Hf & Hm & _).
  split; [exact Hf | exact Hm].
Defined.

(** An empty text between two registered users. *)
Lemma sendMessage_empty_field_rejected_witness :
  done (on_sendMessage bson allFine allFine U1 U2 EmptyString quiet) = [] /\
  messages (after (on_sendMessage bson allFine allFine U1 U2 EmptyString quiet)) = [] /\
  settled (on_sendMessage bson allFine allFine U1 U2 EmptyString quiet)
  = [inl ValidationError; inl ValidationError].
Proof.
  apply (sendMessage_empty_field_rejected bson allFine allFine U1 U2 EmptyString quiet).
  right; right; reflexivity.
Defined.

(** ** The [sendMessage] listeners when the message is stored *)

Section SendSuccess.

Variable odm : Mongoose.

Lemma validate_inv (d : Draft) (m : Message) :
  validate odm d = Some m ->
  castObjectId odm (draft_sender d) = Some (sender m) /\
  castObjectId odm (draft_receiver d) = Some (receiver m) /\
  draft_text d <> EmptyString /\
  text m = draft_text d /\ _id m = draft_id d /\
  timestamp m = draft_timestamp d /\ read m = None.
Proof.
  unfold validate.
  destruct (castObjectId odm (draft_sender d)) as [s|]; [|discriminate].
  destruct (castObjectId odm (draft_receiver d)) as [r|]; [|discriminate].
  destruct (String.eqb (draft_text d) EmptyString) eqn:E; [discriminate|].
  intros [= <-]; simpl. apply String.eqb_neq in E.
  repeat split; trivial.
Qed.

Lemma first_stored (a : Answers) (s r t : string) (w : World) (m : Message) :
  validate odm (draftAt odm w s r t) = Some m ->
  storeAccepts a = true ->
  sendMessage_first odm a s r t w =
  mkRun (withMessages (withConstructed w (S (constructed w))) (messages w ++ [m]))
    [Insert m; Emit (ToRoom (roomId s r)) "receiveMessage" (OfMessage m)]
    (inr tt).
Proof.
  intros V A.
  unfold sendMessage_first, newMessage, bind; simpl.
  rewrite (save_accepted odm a _ m _ V A). reflexivity.
Qed.

(** After an accepted save the second listener evaluates [onlineUsers] and
    is rejected there. *)
Lemma second_stored (a : Answers) (s r t : string) (w : World) (m : Message) :
  validate odm (draftAt odm w s r t) = Some m ->
  storeAccepts a = true ->
  sendMessage_second odm a s r t w =
  mkRun (withMessages (withConstructed w (S (constructed w))) (messages w ++ [m]))
    [Insert m] (inl ReferenceError).
Proof.
  intros V A.
  unfold sendMessage_second, newMessage, bind; simpl.
  rewrite (save_accepted odm a _ m _ V A). reflexivity.
Qed.

(** Whatever the first listener emits goes to the room of the key. *)
Lemma first_emits_to_room (a : Answers) (s r t : string) (w : World) (e : Effect) :
  In e (emits (trace (sendMessage_first odm a s r t w))) ->
  exists m : Message, e = Emit (ToRoom (roomId s r)) "receiveMessage" (OfMessage m).
Proof.
  destruct (validate odm (draftAt odm w s r t)) as [m|] eqn:V.
  - destruct (storeAccepts a) eqn:A.
    + rewrite (first_stored a s r t w m V A); simpl.
      intros [<- | []]. now exists m.
    + rewrite (first_after_failed_save odm a s r t w PersistenceError);
        rewrite (save_rejected odm a _ m _ V A); simpl; [intros [] | reflexivity].
  - rewrite (first_after_failed_save odm a s r t w ValidationError);
      rewrite (save_invalid odm a _ _ V); simpl; [intros [] | reflexivity].
Qed.

(** The event as a whole: each of the two listeners inserts its own
    document, and nothing is mailed. *)
Lemma on_sendMessage_stored_twice
  (a1 a2 : Answers) (s r t : string) (w : World) (m : Message) :
  validate odm (draftAt odm w s r t) = Some m ->
  storeAccepts a1 = true -> storeAccepts a2 = true ->
  let both := on_sendMessage odm a1 a2 s r t w in
  List.length (messages (after both)) = 2 + List.length (messages w) /\
  mails (done both) = [] /\
  settled both = [inr tt; inl ReferenceError].
Proof.
  intros V A1 A2 both.
  destruct (validate_inv _ _ V) as (Hs & Hr & Ht & Hx). simpl in Hs, Hr, Ht.
  unfold both, on_sendMessage, dispatch; cbn [after done settled].
  rewrite (first_stored a1 s r t w m V A1); cbn [world trace outcome].
  set (w1 := withMessages _ _).
  assert (V' : validate odm (draftAt odm w1 s r t)
               = Some {| _id := newObjectId odm (S (constructed w));
                         sender := sender m; receiver := receiver m;
                         text := t; timestamp := now w; read := None |}).
  { unfold validate; simpl. rewrite Hs, Hr.
    destruct (String.eqb t EmptyString) eqn:E; [|reflexivity].
    apply String.eqb_eq in E. contradiction. }
  rewrite (second_stored a2 s r t w1 _ V' A2); cbn [world trace outcome].
  repeat split.
  simpl. rewrite !List.length_app. simpl. lia.
Qed.






(** [sendEmailNotification] on its own: it hands one mail to the transporter
    and has no [try], so a transporter that fails rejects it. *)
Lemma sendEmailNotification_not_caught
  (a : Answers) (to message : string) (w : World) :
  mailDelivers a = false ->
  outcome (sendEmailNotification a to message w) = inl MailError /\
  world (sendEmailNotification a to message w) = w /\
  List.length (mails (trace (sendEmailNotification a to message w))) = 1.
Proof.
  intros H. unfold sendEmailNotification, sendMail, bind, perform; simpl.
  rewrite H. simpl. repeat split.
Qed.


End SendSuccess.

(** C3: the conversation key does not depend on the order of the two
    participant identifiers: [roomId a b = roomId b a]; [joinRoom] joins the
    same room whichever participant is named first, and it is the room that
    [sendMessage] emits to, in either order. *)
Theorem roomId_comm (a b : string) :
  roomId a b = roomId b a /\
  (forall (socket : nat) (w : World),
     joinRoom socket a b w = joinRoom socket b a w) /\
  (forall (odm : Mongoose) (ans : Answers) (text : string) (socket : nat)
          (w w' : World) (e : Effect),
     In e (emits (trace (sendMessage_first odm ans a b text w))) ->
     exists m : Message,
       e = Emit (ToRoom (roomId b a)) "receiveMessage" (OfMessage m) /\
       trace (joinRoom socket b a w') = [Join socket (roomId b a)]).
Proof.
  split; [apply roomId_swap|]. split.
  - intros socket w. unfold joinRoom. now rewrite (roomId_swap a b).
  - intros odm ans text socket w w' e H.
    destruct (first_emits_to_room odm ans a b text w e H) as [m ->].
    exists m. rewrite (roomId_swap a b). split; reflexivity.
Qed.

(** C2 (the code at [sendMessage(U1, U2, "hi")] with [U2] offline): the two
    registered listeners each save a document, so the collection gains two
    entries with the same sender, receiver and text; the second listener is
    then rejected at [onlineUsers], so no mail is sent. *)
Theorem sendMessage_offline_stored_twice :
  let both := on_sendMessage bson allFine allFine U1 U2 "hi" quiet in
  onlineUsers quiet U2 = None /\
  messages quiet = [] /\
  messages (after both) =
    [ {| _id := "000000000000000000000000"; sender := U1; receiver := U2;
         text := "hi"; timestamp := 1000; read := None |};
      {| _id := "000000000000000000000001"; sender := U1; receiver := U2;
         text := "hi"; timestamp := 1000; read := None |} ] /\
  mails (done both) = [] /\
  settled both = [inr tt; inl ReferenceError].
Proof. vm_compute. repeat split. Qed.


(** ** [markAsRead] *)

Section MarkAsRead.

Variable odm : Mongoose.

Lemma withMessages_same (w : World) : withMessages w (messages w) = w.
Proof. now destruct w. Qed.

Lemma withRead_already (m : Message) : read m = Some true -> withRead m = m.
Proof. destruct m; simpl; now intros ->. Qed.

Lemma updateFirst_absent (oid : string) (ms : list Message) :
  find (hasId oid) ms = None -> updateFirst odm oid ms = ms.
Proof.
  induction ms as [|m ms IH]; simpl; trivial.
  destruct (hasId oid m); [discriminate|].
  intros H. now rewrite IH.
Qed.

Lemma updateFirst_already (oid : string) (ms : list Message) (m : Message) :
  find (hasId oid) ms = Some m -> read m = Some true ->
  updateFirst odm oid ms = ms.
Proof.
  induction ms as [|m' ms IH]; simpl; [discriminate|].
  destruct (hasId oid m').
  - intros [= ->] R. unfold applyRead.
    destruct (strict odm); [reflexivity|]. now rewrite withRead_already.
  - intros F R. now rewrite IH.
Qed.

Lemma markAsRead_cast_fails (a : Answers) (id : string) (w : World) :
  castObjectId odm id = None ->
  markAsRead odm a id w = mkRun w [] (inl CastError).
Proof.
  intros C. unfold markAsRead, findByIdAndUpdate, bind. now rewrite C.
Qed.

Lemma markAsRead_store_down (a : Answers) (id oid : string) (w : World) :
  castObjectId odm id = Some oid -> storeAccepts a = false ->
  markAsRead odm a id w = mkRun w [Update oid] (inl PersistenceError).
Proof.
  intros C A. unfold markAsRead, findByIdAndUpdate, bind. now rewrite C, A.
Qed.

Lemma markAsRead_runs (a : Answers) (id oid : string) (w : World) :
  castObjectId odm id = Some oid -> storeAccepts a = true ->
  markAsRead odm a id w =
  mkRun (withMessages w (updateFirst odm oid (messages w)))
    [Update oid; Emit ToAll "messageRead" (OfMessageId id)] (inr tt).
Proof.
  intros C A. unfold markAsRead, findByIdAndUpdate, bind. now rewrite C, A.
Qed.

(** C4 (as the code has it): [markAsRead] on a message whose [read] flag is
    already true changes nothing in the world, and the listener still emits
    the [messageRead] broadcast, as it does on every update that the database
    accepts. *)
Theorem markAsRead_already_read
  (a : Answers) (messageId oid : string) (m : Message) (w : World) :
  castObjectId odm messageId = Some oid ->
  find (hasId oid) (messages w) = Some m ->
  read m = Some true ->
  let run := markAsRead odm a messageId w in
  world run = w /\
  if storeAccepts a
  then outcome run = inr tt /\
       emits (trace run) = [Emit ToAll "messageRead" (OfMessageId messageId)]
  else outcome run = inl PersistenceError /\ emits (trace run) = [].
Proof.
  intros C F R run. unfold run.
  destruct (storeAccepts a) eqn:A.
  - rewrite (markAsRead_runs a _ _ w C A); simpl.
    rewrite (updateFirst_already _ _ _ F R), withMessages_same. now repeat split.
  - rewrite (markAsRead_store_down a _ _ w C A); simpl. now repeat split.
Qed.

(** C5 (as the code has it): [markAsRead] with an identifier of no stored
    message changes nothing in the world and raises no not-found error: with
    a well-formed identifier and a database that answers, the listener is
    fulfilled and emits [messageRead] to every socket; it is rejected, without
    any emission, only when the identifier does not cast or the database
    refuses. *)
Theorem markAsRead_unknown_id (a : Answers) (messageId : string) (w : World) :
  (forall oid, castObjectId odm messageId = Some oid ->
               find (hasId oid) (messages w) = None) ->
  let run := markAsRead odm a messageId w in
  world run = w /\
  match castObjectId odm messageId with
  | Some _ =>
      if storeAccepts a
      then outcome run = inr tt /\
           emits (trace run) = [Emit ToAll "messageRead" (OfMessageId messageId)]
      else outcome run = inl PersistenceError /\ emits (trace run) = []
  | None => outcome run = inl CastError /\ trace run = []
  end.
Proof.
  intros H run. unfold run.
  destruct (castObjectId odm messageId) as [oid|] eqn:C.
  - destruct (storeAccepts a) eqn:A.
    + rewrite (markAsRead_runs a _ _ w C A); simpl.
      rewrite (updateFirst_absent _ _ (H oid eq_refl)), withMessages_same.
      now repeat split.
    + rewrite (markAsRead_store_down a _ _ w C A); simpl. now repeat split.
  - rewrite (markAsRead_cast_fails a _ w C); simpl. now repeat split.
Qed.

End MarkAsRead.

(** A message that is already marked as read, under a schema that keeps the
    flag. *)
Lemma markAsRead_already_read_witness :
  let w := world (markAsRead bsonLoose allFine (countingObjectId 0) oneUnread) in
  map isRead (messages w) = [true] /\
  world (markAsRead bsonLoose allFine (countingObjectId 0) w) = w /\
  emits (trace (markAsRead bsonLoose allFine (countingObjectId 0) w))
  = [Emit ToAll "messageRead" (OfMessageId (countingObjectId 0))].
Proof.
  intros w. split; [reflexivity|].
  destruct (markAsRead_already_read bsonLoose allFine (countingObjectId 0)
              (countingObjectId 0)
              {| _id := countingObjectId 0; sender := U1; receiver := U2;
                 text := "hi"; timestamp := 900; read := Some true |}
              w eq_refl eq_refl eq_refl) as (Hw & _ & He).
  split; [exact Hw | exact He].
Defined.

(** C4 fails as stated: under a schema that keeps the flag, the first
    [markAsRead] sets it, and the second one, on the message now read, emits
    [messageRead] once more. *)
Lemma markAsRead_second_call_emits :
  let id := countingObjectId 0 in
  let w1 := world (markAsRead bsonLoose allFine id oneUnread) in
  map isRead (messages oneUnread) = [false] /\
  map isRead (messages w1) = [true] /\
  emits (trace (markAsRead bsonLoose allFine id w1))
  = [Emit ToAll "messageRead" (OfMessageId id)] /\
  emits (trace (markAsRead bsonLoose allFine id w1)) <> [].
Proof. vm_compute. repeat split. discriminate. Qed.

(** The event as a whole reaches both [markAsRead] listeners. *)
Example on_markAsRead_unknown_id :
  emits (done (on_markAsRead bson allFine allFine "ffffffffffffffffffffffff" quiet))
  = [Emit ToAll "messageRead" (OfMessageId "ffffffffffffffffffffffff");
     Emit ToAll "messageRead" (OfMessageId "ffffffffffffffffffffffff")].
Proof. reflexivity. Qed.

(** An identifier that casts, in a world without messages. *)
Lemma markAsRead_unknown_id_witness :
  world (markAsRead bson allFine "ffffffffffffffffffffffff" quiet) = quiet /\
  outcome (markAsRead bson allFine "ffffffffffffffffffffffff" quiet) = inr tt.
Proof.
  destruct (markAsRead_unknown_id bson allFine "ffffffffffffffffffffffff" quiet)
    as (Hw & Ho & _).
  - intros oid _. reflexivity.
  - split; [exact Hw | exact Ho].
Defined.

(** C5 fails as stated: for an identifier that no stored message has, the
    listener is fulfilled, not rejected, and [messageRead] is emitted. *)
Lemma markAsRead_unknown_id_emits :
  let id := "ffffffffffffffffffffffff" in
  messages quiet = [] /\
  outcome (markAsRead bson allFine id quiet) = inr tt /\
  emits (trace (markAsRead bson allFine id quiet))
  = [Emit ToAll "messageRead" (OfMessageId id)] /\
  emits (trace (markAsRead bson allFine id quiet)) <> [].
Proof. vm_compute. repeat split. discriminate. Qed.

(** ** [joinRoom] *)

Lemma subscribed_added (socket : nat) (room : string) (rs : list (nat * string)) :
  subscribed socket room (rs ++ [(socket, room)]) = true.
Proof.
  unfold subscribed. rewrite existsb_app. simpl.
  rewrite Nat.eqb_refl, String.eqb_refl. simpl. apply orb_true_r.
Qed.

(** C8 (as the code has it): the room key is computed for every pair of
    identifiers, empty ones included (the smaller one, a dash, the larger
    one), and [joinRoom] never fails: it subscribes the socket to the room of
    that key. *)
Theorem joinRoom_never_fails (socket : nat) (senderId receiverId : string) (w : World) :
  let run := joinRoom socket senderId receiverId w in
  outcome run = inr tt /\
  trace run = [Join socket (roomId senderId receiverId)] /\
  subscribed socket (roomId senderId receiverId) (rooms (world run)) = true /\
  roomId senderId receiverId =
    match String.compare senderId receiverId with
    | Gt => receiverId ++ "-" ++ senderId
    | _ => senderId ++ "-" ++ receiverId
    end.
Proof.
  unfold joinRoom, socket_join; simpl. repeat split.
  - destruct (subscribed socket (roomId senderId receiverId) (rooms w)) eqn:E;
      simpl; [exact E | apply subscribed_added].
  - apply roomId_unfold.
Qed.

(** C8 fails as stated: with an empty sender the key ["-" ++ U1] is produced
    and the socket joins that room. *)
Lemma joinRoom_empty_identifier_joins :
  roomId EmptyString U1 = "-aaaaaaaaaaaaaaaaaaaaaaa1" /\
  outcome (joinRoom 7 EmptyString U1 quiet) = inr tt /\
  rooms (world (joinRoom 7 EmptyString U1 quiet)) = [(7, "-aaaaaaaaaaaaaaaaaaaaaaa1")] /\
  roomId EmptyString EmptyString = "-".
Proof. vm_compute. repeat split. Qed.

(** ** The chat history route *)

Section History.

Lemma insertByTimestamp_perm (m : Message) (ms : list Message) :
  Permutation (insertByTimestamp m ms) (m :: ms).
Proof.
  induction ms as [|m' ms IH]; simpl.
  - apply Permutation_refl.
  - destruct (timestamp m <=? timestamp m')%Z.
    + apply Permutation_refl.
    + eapply perm_trans; [apply perm_skip, IH | apply perm_swap].
Qed.

Lemma sortByTimestamp_perm (ms : list Message) :
  Permutation (sortByTimestamp ms) ms.
Proof.
  induction ms as [|m ms IH]; simpl.
  - apply perm_nil.
  - eapply perm_trans; [apply insertByTimestamp_perm | now apply perm_skip].
Qed.

Lemma insertByTimestamp_head (m x : Message) (ms : list Message) :
  notAfter x m -> HdRel notAfter x ms -> HdRel notAfter x (insertByTimestamp m ms).
Proof.
  intros Hxm H. destruct ms as [|m' ms]; simpl.
  - now constructor.
  - destruct (timestamp m <=? timestamp m')%Z; constructor; trivial.
    now inversion H.
Qed.

Lemma insertByTimestamp_sorted (m : Message) (ms : list Message) :
  Sorted notAfter ms -> Sorted notAfter (insertByTimestamp m ms).
Proof.
  induction 1 as [|m' ms S IH H]; simpl.
  - repeat constructor.
  - destruct (timestamp m <=? timestamp m')%Z eqn:E.
    + apply Z.leb_le in E. repeat constructor; trivial.
    + apply Z.leb_gt in E. constructor; trivial.
      apply insertByTimestamp_head; trivial.
      unfold notAfter. lia.
Qed.

Lemma sortByTimestamp_sorted (ms : list Message) :
  StronglySorted notAfter (sortByTimestamp ms).
Proof.
  apply Sorted_StronglySorted.
  - intros x y z. unfold notAfter. lia.
  - induction ms as [|m ms IH]; simpl.
    + constructor.
    + now apply insertByTimestamp_sorted.
Qed.

Variable odm : Mongoose.

Lemma conversation_split (me other : string) (ms : list Message) :
  Permutation ms
    (filter (between me other) ms
     ++ filter (fun m => negb (between me other m)) ms).
Proof.
  induction ms as [|m ms IH]; simpl; [constructor|].
  destruct (between me other m); simpl.
  - now constructor.
  - now apply Permutation_cons_app.
Qed.

Lemma between_inConversation (me other : string) (m : Message) :
  between me other m = true <-> inConversation me other m.
Proof.
  unfold between, inConversation.
  rewrite orb_true_iff, !andb_true_iff, !String.eqb_eq. reflexivity.
Qed.

(** C9: for two participants (identifiers that cast to [ObjectId]s) and a
    database that answers, the route returns the stored messages between
    them in ascending order of [timestamp]: the stored messages split into
    the answer, whose messages were all sent by one of the two to the other,
    and a rest that holds no such message; the world is not changed.  When
    the database refuses the query the handler is rejected and nothing is
    answered. *)
Theorem chatHistory_chronological
  (a : Answers) (userId paramId me other : string) (w : World) :
  castObjectId odm userId = Some me ->
  castObjectId odm paramId = Some other ->
  world (chatRoute odm a userId paramId w) = w /\
  if storeAccepts a
  then
    exists found rest : list Message,
      outcome (chatRoute odm a userId paramId w) = inr found /\
      StronglySorted notAfter found /\
      Permutation (messages w) (found ++ rest) /\
      Forall (inConversation me other) found /\
      Forall (fun m => ~ inConversation me other m) rest /\
      (forall m : Message,
         In m found <-> In m (messages w) /\ inConversation me other m)
  else outcome (chatRoute odm a userId paramId w) = inl PersistenceError.
Proof.
  intros Hme Hother. unfold chatRoute, chatHistory, bind.
  rewrite Hme, Hother; simpl.
  destruct (storeAccepts a); simpl; [|now split]. split; [reflexivity|].
  set (mine := filter (between me other) (messages w)).
  exists (sortByTimestamp mine),
         (filter (fun m => negb (between me other m)) (messages w)).
  assert (P : Permutation (sortByTimestamp mine) mine)
    by apply sortByTimestamp_perm.
  split; [reflexivity|].
  split; [apply sortByTimestamp_sorted|].
  split; [|split; [|split]].
  - eapply perm_trans; [apply (conversation_split me other)|].
    apply Permutation_app_tail, Permutation_sym, P.
  - apply Forall_forall. intros m Hm.
    apply (Permutation_in _ P), filter_In in Hm.
    now apply between_inConversation.
  - apply Forall_forall. intros m Hm. apply filter_In in Hm as [_ Hm].
    rewrite <- between_inConversation. apply negb_true_iff in Hm. congruence.
  - intros m. rewrite <- between_inConversation, <- filter_In. split; intros H.
    + now apply (Permutation_in _ P).
    + now apply (Permutation_in _ (Permutation_sym P)).
Qed.

End History.

Example chatHistory_shuffled :
  outcome (chatHistory bson U1 U2 shuffled) =
  inr [ {| _id := countingObjectId 1; sender := U2; receiver := U1;
           text := "first"; timestamp := 10; read := None |};
        {| _id := countingObjectId 3; sender := U1; receiver := U2;
           text := "second"; timestamp := 20; read := None |};
        {| _id := countingObjectId 0; sender := U1; receiver := U2;
           text := "third"; timestamp := 30; read := None |} ].
Proof. reflexivity. Qed.

(** The conversation of [U1] and [U2] in a collection stored out of order. *)
Lemma chatHistory_chronological_witness :
  exists found rest : list Message,
    outcome (chatRoute bson allFine U1 U2 shuffled) = inr found /\
    StronglySorted notAfter found /\
    Permutation (messages shuffled) (found ++ rest) /\
    Forall (inConversation U1 U2) found /\
    Forall (fun m => ~ inConversation U1 U2 m) rest.
Proof.
  destruct (chatHistory_chronological bson allFine U1 U2 U1 U2 shuffled
              eq_refl eq_refl)
    as (_ & found & rest & H1 & H2 & H3 & H4 & H5 & _).
  exists found, rest. repeat split; assumption.
Defined.

(** * Further properties of the chat code *)

(** ** The room key on identifiers without a dash *)

Lemma string_length_append (s1 s2 : string) :
  String.length (s1 ++ s2) = String.length s1 + String.length s2.
Proof. induction s1 as [|c s1 IH]; simpl; [reflexivity | now rewrite IH]. Qed.

Lemma roomId_length (a b : string) :
  String.length (roomId a b) = S (String.length a + String.length b).
Proof.
  rewrite roomId_unfold.
  destruct (String.compare a b); rewrite !string_length_append; simpl; lia.
Qed.

Lemma dash_split (a b c d : string) :
  dashFree a = true -> dashFree c = true ->
  a ++ "-" ++ b = c ++ "-" ++ d -> a = c /\ b = d.
Proof.
  revert c. induction a as [|x a IH]; intros [|y c]; simpl.
  - intros _ _ [= ->]. now split.
  - intros _ Hc [= <- _]. discriminate.
  - intros Ha _ [= -> _]. discriminate.
  - intros Ha Hc [= -> E].
    apply andb_true_iff in Ha as [_ Ha]. apply andb_true_iff in Hc as [_ Hc].
    destruct (IH c Ha Hc E) as [-> ->]. now split.
Qed.

(** X1: with identifiers that hold no dash (such as the 24 hexadecimal digits of
    an [ObjectId]) the room key determines the unordered pair: two different
    conversations never share a room. *)
Theorem roomId_injective_dashFree (a b c d : string) :
  dashFree a = true -> dashFree b = true ->
  dashFree c = true -> dashFree d = true ->
  roomId a b = roomId c d ->
  same_pair a b c d.
Proof.
  intros Ha Hb Hc Hd. rewrite !roomId_unfold. unfold same_pair.
  destruct (String.compare a b); destruct (String.compare c d); intros E;
    apply dash_split in E; trivial; destruct E as [-> ->]; auto.
Qed.

Lemma roomId_injective_dashFree_witness :
  roomId U1 U2 = roomId U2 U1 /\ same_pair U1 U2 U2 U1.
Proof.
  split; [reflexivity|].
  apply (roomId_injective_dashFree U1 U2 U2 U1); reflexivity.
Defined.

(** ** The second [sendMessage] listener *)

Section SecondListener.

Variable odm : Mongoose.

Lemma second_not_stored (a : Answers) (s r t : string) (w : World) :
  storedBy odm a (draftAt odm w s r t) = [] ->
  exists (e : Error) (tr : list Effect),
    sendMessage_second odm a s r t w
    = mkRun (withConstructed w (S (constructed w))) tr (inl e) /\
    fanout tr = [].
Proof.
  unfold storedBy. intros H.
  destruct (validate odm (draftAt odm w s r t)) as [m|] eqn:V.
  - destruct (storeAccepts a) eqn:A; [discriminate|].
    exists PersistenceError, [Insert m]. split; [|reflexivity].
    rewrite (second_after_failed_save odm a s r t w PersistenceError);
      now rewrite (save_rejected odm a _ m _ V A).
  - exists ValidationError, []. split; [|reflexivity].
    now apply second_invalid.
Qed.

(** X2: the second listener never gets past [onlineUsers]: for every input
    and every answer of the collaborators it emits nothing, mails nobody and
    is rejected; it stores its document exactly as the save decides, and the
    rejection is the [ReferenceError] exactly when the document was stored. *)
Theorem second_listener_stops_at_onlineUsers
  (a : Answers) (senderId receiverId body : string) (w : World) :
  let run := sendMessage_second odm a senderId receiverId body w in
  emits (trace run) = [] /\
  mails (trace run) = [] /\
  rejected (outcome run) = true /\
  messages (world run)
  = (messages w ++ storedBy odm a (draftAt odm w senderId receiverId body))%list /\
  (outcome run = inl ReferenceError <->
   storedBy odm a (draftAt odm w senderId receiverId body) <> []).
Proof.
  intros run. unfold run, storedBy.
  destruct (validate odm (draftAt odm w senderId receiverId body)) as [m|] eqn:V.
  - destruct (storeAccepts a) eqn:A.
    + rewrite (second_stored odm a _ _ _ w m V A); simpl.
      repeat split; trivial. discriminate.
    + rewrite (second_after_failed_save odm a _ _ _ w PersistenceError);
        rewrite (save_rejected odm a _ m _ V A); simpl; trivial.
      rewrite app_nil_r. repeat split; trivial.
      * discriminate.
      * intros H; now contradiction H.
  - rewrite (second_invalid odm a _ _ _ w V); simpl.
    rewrite app_nil_r. repeat split; trivial.
    + discriminate.
    + intros H; now contradiction H.
Qed.

End SecondListener.

(** ** What a [sendMessage] event does to the collection *)

Section SendFrame.

Variable odm : Mongoose.

Lemma withMessages_nil_r (w : World) (n : nat) :
  withMessages (withConstructed w n) (messages w ++ [])
  = withConstructed w n.
Proof. rewrite app_nil_r. now destruct w. Qed.

Lemma first_world (a : Answers) (s r t : string) (w : World) :
  world (sendMessage_first odm a s r t w) =
  withMessages (withConstructed w (S (constructed w)))
    (messages w ++ storedBy odm a (draftAt odm w s r t)).
Proof.
  unfold storedBy.
  destruct (validate odm (draftAt odm w s r t)) as [m|] eqn:V.
  - destruct (storeAccepts a) eqn:A.
    + now rewrite (first_stored odm a s r t w m V A).
    + rewrite (first_after_failed_save odm a s r t w PersistenceError);
        [|now rewrite (save_rejected odm a _ m _ V A)].
      simpl. now rewrite withMessages_nil_r.
  - rewrite (first_invalid odm a s r t w V). simpl.
    now rewrite withMessages_nil_r.
Qed.

Lemma second_world (a : Answers) (s r t : string) (w : World) :
  world (sendMessage_second odm a s r t w) =
  withMessages (withConstructed w (S (constructed w)))
    (messages w ++ storedBy odm a (draftAt odm w s r t)).
Proof.
  destruct (storedBy odm a (draftAt odm w s r t)) as [|m l] eqn:S.
  - destruct (second_not_stored odm a s r t w S) as (e & tr & -> & _).
    simpl. now rewrite withMessages_nil_r.
  - unfold storedBy in S.
    destruct (validate odm (draftAt odm w s r t)) as [m'|] eqn:V; [|discriminate].
    destruct (storeAccepts a) eqn:A; [|discriminate].
    injection S as <- <-.
    now rewrite (second_stored odm a _ _ _ w m' V A).
Qed.

Lemma storedBy_shape (a : Answers) (d : Draft) (m : Message) :
  In m (storedBy odm a d) ->
  castObjectId odm (draft_sender d) = Some (sender m) /\
  castObjectId odm (draft_receiver d) = Some (receiver m) /\
  text m = draft_text d /\ text m <> EmptyString /\
  timestamp m = draft_timestamp d /\ read m = None.
Proof.
  unfold storedBy.
  destruct (validate odm d) as [m'|] eqn:V; [|intros []].
  destruct (storeAccepts a); [|intros []].
  intros [<- | []].
  destruct (validate_inv odm _ _ V) as (Hs & Hr & Ht & Hx & _ & Hts & Hrd).
  repeat split; trivial. now rewrite Hx.
Qed.

Lemma storedBy_length (a : Answers) (d : Draft) :
  List.length (storedBy odm a d) <= 1.
Proof.
  unfold storedBy. destruct (validate odm d); [destruct (storeAccepts a)|]; simpl; lia.
Qed.

(** X4: a [sendMessage] event only appends to the Message collection: the
    messages stored before are kept, in order, and what is added is at most
    one document per listener, each with the cast sender and receiver, the
    given non-empty text, the clock as timestamp and no [read] flag.  Users,
    [onlineUsers] and room subscriptions are not touched. *)
Theorem on_sendMessage_appends
  (a1 a2 : Answers) (senderId receiverId body : string) (w : World) :
  let both := on_sendMessage odm a1 a2 senderId receiverId body w in
  exists added : list Message,
    messages (after both) = (messages w ++ added)%list /\
    List.length added <= 2 /\
    (forall m : Message, In m added ->
       castObjectId odm senderId = Some (sender m) /\
       castObjectId odm receiverId = Some (receiver m) /\
       text m = body /\ body <> EmptyString /\
       timestamp m = now w /\ read m = None) /\
    users (after both) = users w /\
    onlineUsers (after both) = onlineUsers w /\
    rooms (after both) = rooms w.
Proof.
  intros both. unfold both, on_sendMessage, dispatch; cbn [after done settled].
  rewrite second_world, first_world.
  set (d1 := draftAt odm w senderId receiverId body).
  set (d2 := draftAt odm _ senderId receiverId body).
  exists (storedBy odm a1 d1 ++ storedBy odm a2 d2)%list.
  repeat split.
  - simpl. now rewrite app_assoc.
  - rewrite List.length_app.
    pose proof (storedBy_length a1 d1). pose proof (storedBy_length a2 d2). lia.
  - apply in_app_or in H as [H | H]; apply storedBy_shape in H; apply H.
  - apply in_app_or in H as [H | H]; apply storedBy_shape in H; apply H.
  - apply in_app_or in H as [H | H]; apply storedBy_shape in H;
      destruct H as (_ & _ & H & _); exact H.
  - apply in_app_or in H as [H | H]; apply storedBy_shape in H;
      destruct H as (_ & _ & H1 & H2 & _); intros E; apply H2; rewrite H1;
      exact E.
  - apply in_app_or in H as [H | H]; apply storedBy_shape in H;
      destruct H as (_ & _ & _ & _ & H & _); exact H.
  - apply in_app_or in H as [H | H]; apply storedBy_shape in H; apply H.
Qed.

(** X5: the first listener broadcasts exactly what it stored: one
    [receiveMessage] event to the room of the key, carrying the stored
    document, when the save went through, and no event at all otherwise. *)
Theorem first_listener_emits_stored
  (a : Answers) (senderId receiverId body : string) (w : World) :
  emits (trace (sendMessage_first odm a senderId receiverId body w)) =
  map (fun m => Emit (ToRoom (roomId senderId receiverId)) "receiveMessage"
                  (OfMessage m))
    (storedBy odm a (draftAt odm w senderId receiverId body)) /\
  mails (trace (sendMessage_first odm a senderId receiverId body w)) = [].
Proof.
  unfold storedBy.
  destruct (validate odm (draftAt odm w senderId receiverId body)) as [m|] eqn:V.
  - destruct (storeAccepts a) eqn:A.
    + rewrite (first_stored odm a _ _ _ w m V A). now split.
    + rewrite (first_after_failed_save odm a _ _ _ w PersistenceError);
        rewrite (save_rejected odm a _ m _ V A); simpl; now try split.
  - rewrite (first_invalid odm a _ _ _ w V). now split.
Qed.

End SendFrame.

(** ** What [markAsRead] does to the collection *)

Section MarkFrame.

Variable odm : Mongoose.

Lemma sameButRead_refl (m : Message) : sameButRead m m.
Proof. unfold sameButRead. repeat split; trivial. Qed.

Lemma sameButRead_applyRead (m : Message) : sameButRead m (applyRead odm m).
Proof.
  unfold applyRead. destruct (strict odm); [apply sameButRead_refl|].
  unfold sameButRead; simpl. repeat split; trivial.
Qed.

Lemma Forall2_sameButRead_refl (ms : list Message) : Forall2 sameButRead ms ms.
Proof. induction ms; constructor; trivial. apply sameButRead_refl. Qed.

Lemma updateFirst_sameButRead (oid : string) (ms : list Message) :
  Forall2 sameButRead ms (updateFirst odm oid ms).
Proof.
  induction ms as [|m ms IH]; simpl; [constructor|].
  destruct (hasId oid m); constructor; trivial.
  - apply sameButRead_applyRead.
  - apply Forall2_sameButRead_refl.
  - apply sameButRead_refl.
Qed.

Lemma markAsRead_world (a : Answers) (messageId : string) (w : World) :
  world (markAsRead odm a messageId w) = w \/
  exists oid : string,
    castObjectId odm messageId = Some oid /\ storeAccepts a = true /\
    world (markAsRead odm a messageId w)
    = withMessages w (updateFirst odm oid (messages w)).
Proof.
  destruct (castObjectId odm messageId) as [oid|] eqn:C.
  - destruct (storeAccepts a) eqn:A.
    + right. exists oid. rewrite (markAsRead_runs odm a _ _ w C A). auto.
    + left. now rewrite (markAsRead_store_down odm a _ _ w C A).
  - left. now rewrite (markAsRead_cast_fails odm a _ w C).
Qed.

(** X6: [markAsRead] never adds, removes or reorders messages and never touches
    anything but the [read] flag: each stored message keeps its identifier,
    sender, receiver, text and timestamp, and a message that was read stays
    read.  This holds for every identifier and every answer of the database. *)
Theorem markAsRead_keeps_messages (a : Answers) (messageId : string) (w : World) :
  Forall2 sameButRead (messages w) (messages (world (markAsRead odm a messageId w))).
Proof.
  destruct (markAsRead_world a messageId w) as [-> | (oid & _ & _ & ->)].
  - apply Forall2_sameButRead_refl.
  - simpl. apply updateFirst_sameButRead.
Qed.

Lemma updateFirst_strict (oid : string) (ms : list Message) :
  strict odm = true -> updateFirst odm oid ms = ms.
Proof.
  intros S. induction ms as [|m ms IH]; simpl; trivial.
  unfold applyRead. rewrite S.
  destruct (hasId oid m); [reflexivity | now rewrite IH].
Qed.

(** X7: [read] is not a path of [MessageSchema]: under a strict schema, which is
    what [new mongoose.Schema({...})] without options gives, [markAsRead]
    leaves the whole world as it was, for a stored message as for an unknown
    identifier, while the [messageRead] broadcast is emitted all the same
    when the identifier casts and the database answers. *)
Theorem markAsRead_strict_stores_nothing
  (a : Answers) (messageId oid : string) (w : World) :
  strict odm = true ->
  castObjectId odm messageId = Some oid ->
  storeAccepts a = true ->
  let run := markAsRead odm a messageId w in
  world run = w /\
  map isRead (messages (world run)) = map isRead (messages w) /\
  emits (trace run) = [Emit ToAll "messageRead" (OfMessageId messageId)].
Proof.
  intros S C A run. unfold run.
  rewrite (markAsRead_runs odm a _ _ w C A); simpl.
  rewrite (updateFirst_strict _ _ S), withMessages_same. repeat split.
Qed.

End MarkFrame.

Lemma markAsRead_strict_stores_nothing_witness :
  world (markAsRead bson allFine (countingObjectId 0) oneUnread) = oneUnread /\
  map isRead (messages (world (markAsRead bson allFine (countingObjectId 0) oneUnread)))
  = [false].
Proof.
  destruct (markAsRead_strict_stores_nothing bson allFine (countingObjectId 0)
              (countingObjectId 0) oneUnread eq_refl eq_refl eq_refl)
    as (H1 & H2 & _).
  split; [exact H1 | exact H2].
Defined.

(** ** The chat history route, further *)

Section HistoryMore.

Variable odm : Mongoose.

Lemma between_sym (me other : string) (m : Message) :
  between me other m = between other me m.
Proof. unfold between. apply orb_comm. Qed.

(** X9: the route gives the same answer whichever of the two users asks about
    the other: the filter takes both directions. *)
Theorem chatHistory_symmetric (a b : string) (w : World) :
  chatHistory odm a b w = chatHistory odm b a w.
Proof.
  unfold chatHistory.
  destruct (castObjectId odm a) as [x|]; destruct (castObjectId odm b) as [y|];
    trivial.
  f_equal. f_equal. f_equal. apply filter_ext. intros m. apply between_sym.
Qed.

Lemma between_spec (me other : string) (m : Message) :
  between me other m = true <->
  (sender m = me /\ receiver m = other) \/ (sender m = other /\ receiver m = me).
Proof.
  unfold between.
  rewrite orb_true_iff, !andb_true_iff, !String.eqb_eq. reflexivity.
Qed.

(** X10: the answer holds exactly the stored messages that one of the two users
    sent to the other: no message of another conversation is returned and
    none of this conversation is left out. *)
Theorem chatHistory_exactly_conversation
  (userId paramId me other : string) (w : World) :
  castObjectId odm userId = Some me ->
  castObjectId odm paramId = Some other ->
  exists found : list Message,
    outcome (chatHistory odm userId paramId w) = inr found /\
    forall m : Message,
      In m found <->
      In m (messages w) /\
      ((sender m = me /\ receiver m = other) \/
       (sender m = other /\ receiver m = me)).
Proof.
  intros Hme Hother. unfold chatHistory. rewrite Hme, Hother; simpl.
  eexists. split; [reflexivity|].
  intros m. rewrite <- between_spec, <- filter_In.
  pose proof (sortByTimestamp_perm (filter (between me other) (messages w))) as Hp.
  split; intros H.
  - eapply Permutation_in; eassumption.
  - eapply Permutation_in; [apply Permutation_sym|]; eassumption.
Qed.

(** X11: send, then read the history: after a [sendMessage] event whose two saves
    are accepted, the history of sender and receiver holds what it held
    before and the two documents the listeners stored, both with the text
    sent. *)
Theorem history_after_send
  (a1 a2 : Answers) (senderId receiverId body me other : string) (w : World) :
  castObjectId odm senderId = Some me ->
  castObjectId odm receiverId = Some other ->
  body <> EmptyString ->
  storeAccepts a1 = true -> storeAccepts a2 = true ->
  let w' := after (on_sendMessage odm a1 a2 senderId receiverId body w) in
  exists (before found : list Message) (m1 m2 : Message),
    outcome (chatHistory odm senderId receiverId w) = inr before /\
    outcome (chatHistory odm senderId receiverId w') = inr found /\
    Permutation found (before ++ [m1; m2]) /\
    text m1 = body /\ text m2 = body /\
    sender m1 = me /\ receiver m1 = other /\
    sender m2 = me /\ receiver m2 = other /\
    _id m1 = newObjectId odm (constructed w) /\
    _id m2 = newObjectId odm (S (constructed w)).
Proof.
  intros Hme Hother Hb A1 A2 w'.
  assert (E : String.eqb body EmptyString = false) by now apply String.eqb_neq.
  set (m1 := {| _id := newObjectId odm (constructed w); sender := me;
                receiver := other; text := body; timestamp := now w;
                read := None |}).
  set (m2 := {| _id := newObjectId odm (S (constructed w)); sender := me;
                receiver := other; text := body; timestamp := now w;
                read := None |}).
  assert (Hw : messages w' = (messages w ++ [m1; m2])%list).
  { unfold w', on_sendMessage, dispatch; cbn [after done settled].
    rewrite second_world, first_world.
    unfold storedBy, validate; simpl. rewrite Hme, Hother, E, A1, A2.
    now rewrite <- app_assoc. }
  unfold chatHistory. rewrite Hme, Hother; simpl.
  do 2 eexists. exists m1, m2.
  split; [reflexivity|]. split; [reflexivity|].
  split; [|repeat split].
  rewrite Hw, filter_app.
  assert (B : forall i, between me other
            {| _id := i; sender := me; receiver := other; text := body;
               timestamp := now w; read := None |} = true).
  { intros i. apply between_spec. left. now split. }
  simpl. unfold m1, m2. rewrite !B.
  eapply perm_trans; [apply sortByTimestamp_perm|].
  apply Permutation_app_tail, Permutation_sym, sortByTimestamp_perm.
Qed.

End HistoryMore.

Lemma chatHistory_exactly_conversation_witness :
  exists found : list Message,
    outcome (chatHistory bson U1 U2 shuffled) = inr found /\
    forall m : Message,
      In m found <->
      In m (messages shuffled) /\
      ((sender m = U1 /\ receiver m = U2) \/ (sender m = U2 /\ receiver m = U1)).
Proof.
  apply (chatHistory_exactly_conversation bson U1 U2 U1 U2 shuffled); reflexivity.
Defined.

Lemma history_after_send_witness :
  exists (before found : list Message) (m1 m2 : Message),
    outcome (chatHistory bson U1 U2 quiet) = inr before /\
    outcome (chatHistory bson U1 U2
               (after (on_sendMessage bson allFine allFine U1 U2 "hi" quiet)))
    = inr found /\
    Permutation found (before ++ [m1; m2]) /\
    text m1 = "hi" /\ text m2 = "hi".
Proof.
  destruct (history_after_send bson allFine allFine U1 U2 "hi" U1 U2 quiet
              eq_refl eq_refl ltac:(discriminate) eq_refl eq_refl)
    as (before & found & m1 & m2 & H1 & H2 & H3 & H4 & H5 & _).
  exists before, found, m1, m2. repeat split; assumption.
Defined.

(** ** The [authenticate] middleware *)

Section HttpFacts.

Variable odm : Mongoose.
Variable jwt_verify : string -> option string.

Lemma split_spaceFree (s : string) :
  spaceFree s = true -> JsString.split " " s = [s].
Proof.
  induction s as [|c s IH]; simpl; trivial.
  intros H. apply andb_true_iff in H as [Hc Hs].
  apply negb_true_iff in Hc. rewrite Hc, (IH Hs). reflexivity.
Qed.

Lemma split_first_space (word rest : string) :
  spaceFree word = true ->
  exists piece pieces,
    JsString.split " " rest = piece :: pieces /\
    JsString.split " " (word ++ " " ++ rest) = word :: piece :: pieces.
Proof.
  intros H.
  assert (N : exists piece pieces, JsString.split " " rest = piece :: pieces).
  { destruct rest as [|c rest]; simpl; [eauto|].
    destruct (Ascii.eqb c " "); [eauto|].
    destruct (JsString.split " " rest); eauto. }
  destruct N as (piece & pieces & N). exists piece, pieces. split; trivial.
  induction word as [|c word IH]; simpl.
  - now rewrite N.
  - simpl in H. apply andb_true_iff in H as [Hc Hw].
    apply negb_true_iff in Hc. rewrite Hc.
    simpl in IH. now rewrite (IH Hw).
Qed.

Lemma authenticate_after_space (word rest : string) :
  spaceFree word = true ->
  authenticate jwt_verify (Some (word ++ " " ++ rest)) =
  match jwt_verify (hd EmptyString (JsString.split " " rest)) with
  | Some userId => inr userId
  | None => inl invalidToken
  end.
Proof.
  intros Hw. unfold authenticate.
  destruct (split_first_space word rest Hw) as (piece & pieces & H1 & H2).
  rewrite H2, H1.
  assert (E : String.eqb (word ++ " " ++ rest) EmptyString = false).
  { apply String.eqb_neq. destruct word; discriminate. }
  rewrite E. reflexivity.
Qed.

(** X12: a header without a space is always refused: a missing or empty header
    with 401 "Unauthorized", any other with 401 "Invalid token".  In
    particular a bare token, sent without a scheme word in front, is refused
    even when the token itself would verify. *)
Theorem authenticate_needs_second_word (authorization : option string) :
  match authorization with
  | Some token => spaceFree token = true
  | None => True
  end ->
  authenticate jwt_verify authorization =
  inl (match authorization with
       | Some (String _ _) => invalidToken
       | _ => unauthorized
       end).
Proof.
  destruct authorization as [[|c token]|]; trivial.
  intros H. unfold authenticate.
  rewrite (split_spaceFree _ H). reflexivity.
Qed.

(** X13: the word in front of the token is not looked at: for every word without
    a space, ["Bearer"] or not, the header [word ++ " " ++ t] is accepted
    exactly when [t] verifies, and [req.userId] is then the identifier in
    its payload. *)
Theorem authenticate_ignores_scheme (word t : string) :
  spaceFree word = true -> spaceFree t = true ->
  authenticate jwt_verify (Some (word ++ " " ++ t)) =
  match jwt_verify t with
  | Some userId => inr userId
  | None => inl invalidToken
  end.
Proof.
  intros Hw Ht.
  rewrite (authenticate_after_space word t Hw), (split_spaceFree _ Ht).
  reflexivity.
Qed.

(** X14: the chat route only ever shows the authenticated user their own
    conversations: whenever it answers with messages, the header carried a
    token that verifies, and every message returned was sent or received by
    the user of that token, in ascending order of timestamp. *)
Theorem getChat_only_own_messages
  (authorization : option string) (paramId : string) (w : World)
  (found : list Message) :
  getChat odm jwt_verify authorization paramId w = History found ->
  exists (userId me : string),
    authenticate jwt_verify authorization = inr userId /\
    castObjectId odm userId = Some me /\
    Forall (fun m => sender m = me \/ receiver m = me) found /\
    StronglySorted notAfter found.
Proof.
  unfold getChat.
  destruct (authenticate jwt_verify authorization) as [r|userId]; [discriminate|].
  unfold chatHistory.
  destruct (castObjectId odm userId) as [me|] eqn:Hme; [|discriminate].
  destruct (castObjectId odm paramId) as [other|]; [|discriminate].
  simpl. intros [= <-]. exists userId, me.
  split; [reflexivity|]. split; [exact Hme|]. split.
  - apply Forall_forall. intros m Hm.
    eapply Permutation_in in Hm; [|apply sortByTimestamp_perm].
    apply filter_In in Hm as [_ Hm].
    unfold between in Hm. apply orb_true_iff in Hm as [Hm | Hm];
      apply andb_true_iff in Hm as [H1 H2];
      apply String.eqb_eq in H1, H2; auto.
  - apply sortByTimestamp_sorted.
Qed.

End HttpFacts.

Lemma authenticate_needs_second_word_witness :
  authenticate prefixVerify (Some ("tok:" ++ U1)) = inl invalidToken /\
  prefixVerify ("tok:" ++ U1) = Some U1.
Proof.
  split; [|reflexivity].
  apply (authenticate_needs_second_word prefixVerify (Some ("tok:" ++ U1))).
  reflexivity.
Defined.

Lemma authenticate_ignores_scheme_witness :
  authenticate prefixVerify (Some ("Basic " ++ "tok:" ++ U1)) = inr U1.
Proof.
  apply (authenticate_ignores_scheme prefixVerify "Basic" ("tok:" ++ U1));
    reflexivity.
Defined.

Lemma getChat_only_own_messages_witness :
  exists userId me : string,
    authenticate prefixVerify (Some ("Bearer " ++ "tok:" ++ U1)) = inr userId /\
    castObjectId bson userId = Some me /\
    Forall (fun m => sender m = me \/ receiver m = me)
      (sortByTimestamp (filter (between U1 U2) (messages shuffled))) /\
    StronglySorted notAfter
      (sortByTimestamp (filter (between U1 U2) (messages shuffled))).
Proof.
  apply (getChat_only_own_messages bson prefixVerify
           (Some ("Bearer " ++ "tok:" ++ U1)) U2 shuffled).
  reflexivity.
Defined.

Example createPost_second_upload_fails :
  createPost fairServices true U1 None (Some [photo; brokenGif]) twoOnDisk =
  ({| posts := []; cloud := ["marketplace_posts/old.png"]; disk := ["uploads/media-2.mp4"] |},
   [CallUpload photo; CallUpload brokenGif;
    CallDestroy "marketplace_posts/a.png"; CallDestroy "marketplace_posts/a.png";
    CallUnlink "uploads/media-1.png"; CallUnlink "uploads/media-3.gif"],
   {| pr_status := 500; pr_success := false;
      pr_message := "An unexpected error occurred while creating the post";
      pr_error := Some "Failed to upload broken.gif: Request Timeout";
      pr_post := None |}).
Proof. reflexivity. Qed.

(** ** The clean-up helpers *)

Section PostFacts.

Variable sv : Services.

Lemma in_without (x y : string) (l : list string) :
  In y (without x l) <-> In y l /\ y <> x.
Proof.
  unfold without. rewrite filter_In, negb_true_iff, String.eqb_neq. reflexivity.
Qed.

Lemma unlinkEach_spec (files : list File) (st : Storage) :
  let st' := fst (unlinkEach sv files st) in
  snd (unlinkEach sv files st) = unlinkCalls files /\
  posts st' = posts st /\ cloud st' = cloud st /\
  (forall p, In p (disk st') -> In p (disk st)) /\
  (forall f, In f files -> fs_unlink sv (path f) = true -> ~ In (path f) (disk st')) /\
  (forall p, In p (disk st) -> (forall f, In f files -> path f <> p) -> In p (disk st')).
Proof.
  revert st. induction files as [|file rest IH]; intros st; simpl.
  - repeat split; trivial. intros f [].
  - set (st1 := if fs_unlink sv (path file) then _ else st).
    specialize (IH st1). destruct (unlinkEach sv rest st1) as [st2 calls].
    simpl in *. destruct IH as (Hc & Hp & Hcl & Hin & Hgone & Hkeep).
    assert (D1 : forall p, In p (disk st1) -> In p (disk st)).
    { intros p. unfold st1. destruct (fs_unlink sv (path file)); simpl; trivial.
      rewrite in_without. tauto. }
    assert (P1 : posts st1 = posts st /\ cloud st1 = cloud st).
    { unfold st1. now destruct (fs_unlink sv (path file)). }
    destruct P1 as [P1 C1].
    repeat split.
    + now rewrite Hc.
    + congruence.
    + congruence.
    + auto.
    + intros f [<- | Hf] U.
      * intros H. apply Hin in H. unfold st1 in H. rewrite U in H. simpl in H.
        apply in_without in H. tauto.
      * now apply Hgone.
    + intros p Hp0 Hn. apply Hkeep.
      * unfold st1. destruct (fs_unlink sv (path file)); simpl; trivial.
        apply in_without. split; trivial. intros ->.
        apply (Hn file); [now left | reflexivity].
      * intros f Hf. apply Hn. now right.
Qed.

Lemma cleanupCloudinaryUploads_spec (urls : list Media) (st : Storage) :
  let st' := fst (cleanupCloudinaryUploads sv urls st) in
  snd (cleanupCloudinaryUploads sv urls st) = destroyCalls urls /\
  posts st' = posts st /\ disk st' = disk st /\
  (forall id, In id (cloud st') -> In id (cloud st)) /\
  (forall m, In m urls -> cloudinary_destroy sv (media_publicId m) = true ->
             ~ In (media_publicId m) (cloud st')).
Proof.
  revert st. induction urls as [|media rest IH]; intros st; simpl.
  - repeat split; trivial. intros m [].
  - set (st1 := if cloudinary_destroy sv (media_publicId media) then _ else st).
    specialize (IH st1). destruct (cleanupCloudinaryUploads sv rest st1) as [st2 calls].
    simpl in *. destruct IH as (Hc & Hp & Hd & Hin & Hgone).
    assert (C1 : forall id, In id (cloud st1) -> In id (cloud st)).
    { intros id. unfold st1. destruct (cloudinary_destroy sv _); simpl; trivial.
      rewrite in_without. tauto. }
    assert (P1 : posts st1 = posts st /\ disk st1 = disk st).
    { unfold st1. now destruct (cloudinary_destroy sv _). }
    destruct P1 as [P1 D1].
    repeat split.
    + unfold destroyCalls in *. simpl. now rewrite Hc.
    + congruence.
    + congruence.
    + auto.
    + intros m [<- | Hm] U.
      * intros H. apply Hin in H. unfold st1 in H. rewrite U in H. simpl in H.
        apply in_without in H. tauto.
      * now apply Hgone.
Qed.

(** X15: [cleanupFiles] calls [unlink] once for every file, in order, whichever
    of the calls fail: a failure does not stop the loop.  Every file whose
    [unlink] succeeds is gone from the disk afterwards, no other path is
    touched, and posts and Cloudinary resources are left alone. *)
Theorem cleanupFiles_goes_on (files : list File) (st : Storage) :
  let st' := fst (cleanupFiles sv (Some files) st) in
  snd (cleanupFiles sv (Some files) st) = map (fun f => CallUnlink (path f)) files /\
  (forall f, In f files -> fs_unlink sv (path f) = true -> ~ In (path f) (disk st')) /\
  (forall p, In p (disk st) -> (forall f, In f files -> path f <> p) -> In p (disk st')) /\
  (forall p, In p (disk st') -> In p (disk st)) /\
  posts st' = posts st /\ cloud st' = cloud st.
Proof.
  simpl. destruct (unlinkEach_spec files st) as (H1 & H2 & H3 & H4 & H5 & H6).
  repeat split; trivial.
Qed.


(** ** The upload loop and the route *)

Lemma storage_eta (st : Storage) :
  {| posts := posts st; cloud := cloud st; disk := disk st |} = st.
Proof. now destruct st. Qed.

Lemma uploadEach_spec (files : list File) :
  forall (acc : list Media) (st st' : Storage) (calls : list Call)
         (res : JsError + unit) (urls : list Media),
  uploadEach sv files acc st = (st', calls, res, urls) ->
  posts st' = posts st /\ disk st' = disk st /\
  exists results : list UploadResult,
    urls = (acc ++ map mediaOf results)%list /\
    match res with
    | inr _ =>
        Forall2 (fun f r => cloudinary_upload sv f = inr r) files results /\
        cloud st' = (cloud st ++ map public_id results)%list /\
        calls = map CallUpload files
    | inl e =>
        exists (sent : list File) (file : File) (e0 : JsError) (rest : list File),
          files = (sent ++ file :: rest)%list /\
          Forall2 (fun f r => cloudinary_upload sv f = inr r) sent results /\
          cloudinary_upload sv file = inl e0 /\
          e = newError ("Failed to upload " ++ originalname file ++ ": "
                          ++ error_message e0) /\
          st' = fst (cleanupCloudinaryUploads sv urls
                       {| posts := posts st;
                          cloud := (cloud st ++ map public_id results)%list;
                          disk := disk st |}) /\
          calls = (map CallUpload (sent ++ [file]) ++ destroyCalls urls)%list
    end.
Proof.
  induction files as [|file rest IH]; intros acc st st' calls res urls; simpl.
  - intros [= <- <- <- <-]. repeat split. exists []. simpl.
    rewrite !app_nil_r. repeat split. constructor.
  - destruct (cloudinary_upload sv file) as [e0|r] eqn:U.
    + destruct (cleanupCloudinaryUploads_spec acc st) as (Hc & Hp & Hd & _).
      destruct (cleanupCloudinaryUploads sv acc st) as [st1 calls1] eqn:C.
      simpl in *. intros [= <- <- <- <-]. repeat split; trivial.
      exists []. simpl. rewrite app_nil_r. split; trivial.
      exists [], file, e0, rest. simpl. repeat split; trivial.
      * rewrite app_nil_r, storage_eta, C. reflexivity.
      * now rewrite Hc.
    + destruct (uploadEach sv rest (acc ++ [mediaOf r])
                  {| posts := posts st; cloud := cloud st ++ [public_id r];
                     disk := disk st |})
        as [[[st2 calls2] res2] urls2] eqn:E.
      intros [= <- <- <- <-].
      destruct (IH _ _ _ _ _ _ E) as (Hp & Hd & results & Hu & H). simpl in Hp, Hd.
      repeat split; trivial.
      exists (r :: results). simpl. split.
      * rewrite Hu, <- app_assoc. reflexivity.
      * destruct res2 as [e|[]].
        -- destruct H as (sent & f & e0 & rest' & -> & HF & Hf & -> & Hst & Hcalls).
           exists (file :: sent), f, e0, rest'. simpl in *.
           repeat split; trivial.
           ++ now constructor.
           ++ rewrite Hst, <- app_assoc. reflexivity.
           ++ now rewrite Hcalls.
        -- destruct H as (HF & Hcl & ->). simpl in Hcl.
           repeat split.
           ++ now constructor.
           ++ rewrite Hcl, <- app_assoc. reflexivity.
Qed.

Lemma failureReply_not_created (development : bool) (error : JsError) :
  pr_status (failureReply development error) <> 201 /\
  pr_post (failureReply development error) = None /\
  pr_success (failureReply development error) = false.
Proof.
  unfold failureReply.
  destruct (JsText.includes _ _); [|destruct (String.eqb _ _)]; simpl;
    repeat split; discriminate.
Qed.

Lemma catchBlock_spec (development : bool) (files : option (list File))
  (urls : list Media) (error : JsError) (st : Storage) (calls : list Call) :
  let '(st', calls', reply) := catchBlock sv development files urls error st calls in
  reply = failureReply development error /\
  calls' = (calls ++ destroyCalls urls ++ unlinkCalls (filesOf files))%list /\
  posts st' = posts st /\
  (forall id, In id (cloud st') -> In id (cloud st)) /\
  (forall m, In m urls -> cloudinary_destroy sv (media_publicId m) = true ->
             ~ In (media_publicId m) (cloud st')) /\
  (forall p, In p (disk st') -> In p (disk st)) /\
  (forall f, In f (filesOf files) -> fs_unlink sv (path f) = true ->
             ~ In (path f) (disk st')).
Proof.
  unfold catchBlock.
  destruct (cleanupCloudinaryUploads_spec urls st) as (Hc & Hp & Hd & Hin & Hgone).
  destruct (cleanupCloudinaryUploads sv urls st) as [st1 calls1]. simpl in *.
  destruct files as [fs|]; simpl.
  - destruct (unlinkEach_spec fs st1) as (Uc & Up & Ucl & Uin & Ugone & _).
    destruct (unlinkEach sv fs st1) as [st2 calls2]. simpl in *.
    repeat split; try congruence.
    + intros id H. apply Hin. congruence.
    + intros m Hm D H. apply (Hgone m Hm D). congruence.
    + intros p H. apply Uin in H. congruence.
    + exact Ugone.
  - repeat split; try congruence; trivial.
    all: try (intros f []).
    all: intros p H; congruence.
Qed.

End PostFacts.

(** ** [POST /posts] *)

Section CreatePost.

Variable sv : Services.

Lemma mediaOf_publicId (results : list UploadResult) :
  map media_publicId (map mediaOf results) = map public_id results.
Proof. induction results as [|r rs IH]; simpl; [reflexivity | now rewrite IH]. Qed.

Lemma noFiles_filesOf (files : option (list File)) :
  noFiles files = true -> filesOf files = [].
Proof.
  destruct files as [[|f fs]|]; simpl; trivial. discriminate.
Qed.

(** X16: a post with neither content nor files is refused with status 400 and
    the message of the validation, before any call to Cloudinary, the disk
    or the database, whatever the services would answer. *)
Theorem createPost_empty_refused
  (development : bool) (userId : string) (content : option string)
  (files : option (list File)) (st : Storage) :
  falsy content = true -> noFiles files = true ->
  createPost sv development userId content files st =
  (st, [],
   {| pr_status := 400; pr_success := false;
      pr_message := "Post must contain either content or media files";
      pr_error := if development
                  then Some "Post must contain either content or media files"
                  else None;
      pr_post := None |}).
Proof.
  intros Hc Hf. unfold createPost. rewrite Hc, Hf. simpl.
  unfold catchBlock. simpl.
  destruct files as [[|f fs]|]; simpl; try discriminate; reflexivity.
Qed.

(** X18: a request that fails leaves none of its own uploads behind, provided
    [destroy] works: every resource Cloudinary holds afterwards was there
    before the request. *)
Theorem createPost_failure_no_orphans
  (development : bool) (userId : string) (content : option string)
  (files : option (list File)) (st st' : Storage) (calls : list Call)
  (reply : PostReply) :
  createPost sv development userId content files st = (st', calls, reply) ->
  pr_status reply <> 201 ->
  (forall id, cloudinary_destroy sv id = true) ->
  forall id, In id (cloud st') -> In id (cloud st).
Proof.
  unfold createPost. intros E S D id Hid.
  assert (G : forall results e before done,
             catchBlock sv development files (map mediaOf results) e before done
             = (st', calls, reply) ->
             (forall i, In i (cloud before) ->
                        In i (cloud st) \/ In i (map public_id results)) ->
             In id (cloud st)).
  { intros results e before done C Hb.
    pose proof (catchBlock_spec sv development files (map mediaOf results) e before done) as H.
    rewrite C in H. destruct H as (_ & _ & _ & Hin & Hgone & _).
    destruct (Hb id (Hin id Hid)) as [H | H]; trivial.
    rewrite <- mediaOf_publicId in H. apply in_map_iff in H as (m & <- & Hm).
    exfalso. exact (Hgone m Hm (D _) Hid). }
  destruct (falsy content && noFiles files).
  { apply (G [] _ _ _ E). auto. }
  fold (filesOf files) in E.
  destruct (uploadEach sv (filesOf files) [] st) as [[[st1 calls1] res] urls] eqn:U.
  destruct (uploadEach_spec sv _ _ _ _ _ _ _ U) as (Hp & Hd & results & Hu & H).
  simpl in Hu. subst urls.
  destruct res as [e|[]].
  { apply (G results _ _ _ E).
    destruct H as (sent & f & e0 & rest & _ & _ & _ & _ & -> & _).
    intros i Hi.
    destruct (cleanupCloudinaryUploads_spec sv (map mediaOf results)
                {| posts := posts st; cloud := cloud st ++ map public_id results;
                   disk := disk st |}) as (_ & _ & _ & Hin & _).
    apply Hin in Hi. simpl in Hi. now apply in_app_or in Hi. }
  destruct H as (HF & Hcl & ->).
  set (post := {| post_content := content; post_media := map mediaOf results;
                  post_user := userId |}) in *.
  assert (Hb : forall i, In i (cloud st1) ->
                         In i (cloud st) \/ In i (map public_id results)).
  { intros i Hi. rewrite Hcl in Hi. now apply in_app_or in Hi. }
  destruct (post_save sv post) as [e|] eqn:Sv.
  { apply (G results _ _ _ E Hb). }
  set (st2 := {| posts := posts st1 ++ [post]; cloud := cloud st1; disk := disk st1 |}) in *.
  assert (Hc3 : cloud (fst (cleanupFiles sv files st2)) = cloud st2).
  { destruct files as [fs|]; simpl; trivial.
    now destruct (unlinkEach_spec sv fs st2) as (_ & _ & Ucl & _). }
  destruct (cleanupFiles sv files st2) as [st3 calls3]. simpl in Hc3.
  destruct (post_populate sv post) as [e|] eqn:Pp.
  { apply (G results _ _ _ E). intros i Hi. apply Hb. congruence. }
  injection E as <- <- <-. now contradiction S.
Qed.

(** X19: a request that fails stores no post, with one exception: when it is
    [populate] that rejects, after the save, the post stays in the
    collection although the answer reports a failure, and [destroy] is
    called for each of its media. *)
Theorem createPost_failure_posts
  (development : bool) (userId : string) (content : option string)
  (files : option (list File)) (st st' : Storage) (calls : list Call)
  (reply : PostReply) :
  createPost sv development userId content files st = (st', calls, reply) ->
  pr_status reply <> 201 ->
  pr_post reply = None /\
  (posts st' = posts st \/
   exists (post : Post) (error : JsError),
     post_save sv post = None /\
     post_populate sv post = Some error /\
     posts st' = (posts st ++ [post])%list /\
     forall m, In m (post_media post) ->
               In (CallDestroy (media_publicId m)) calls).
Proof.
  unfold createPost. intros E S.
  assert (G : forall urls e before done,
             catchBlock sv development files urls e before done
             = (st', calls, reply) ->
             pr_post reply = None /\ posts st' = posts before /\
             forall m, In m urls -> In (CallDestroy (media_publicId m)) calls).
  { intros urls e before done C.
    pose proof (catchBlock_spec sv development files urls e before done) as H.
    rewrite C in H. destruct H as (-> & -> & Hp & _).
    split; [apply failureReply_not_created|]. split; trivial.
    intros m Hm. apply in_or_app. right. apply in_or_app. left.
    unfold destroyCalls. apply in_map_iff. now exists m. }
  destruct (falsy content && noFiles files).
  { destruct (G _ _ _ _ E) as (H1 & H2 & _). auto. }
  fold (filesOf files) in E.
  destruct (uploadEach sv (filesOf files) [] st) as [[[st1 calls1] res] urls] eqn:U.
  destruct (uploadEach_spec sv _ _ _ _ _ _ _ U) as (Hp & Hd & results & Hu & H).
  destruct res as [e|[]].
  { destruct (G _ _ _ _ E) as (H1 & H2 & _). split; trivial. left. congruence. }
  set (post := {| post_content := content; post_media := urls;
                  post_user := userId |}) in *.
  destruct (post_save sv post) as [e|] eqn:Sv.
  { destruct (G _ _ _ _ E) as (H1 & H2 & _). split; trivial. left. congruence. }
  set (st2 := {| posts := posts st1 ++ [post]; cloud := cloud st1; disk := disk st1 |}) in *.
  assert (Hp3 : posts (fst (cleanupFiles sv files st2)) = posts st2).
  { destruct files as [fs|]; simpl; trivial.
    now destruct (unlinkEach_spec sv fs st2) as (_ & Up & _). }
  destruct (cleanupFiles sv files st2) as [st3 calls3]. simpl in Hp3.
  destruct (post_populate sv post) as [e|] eqn:Pp.
  { destruct (G _ _ _ _ E) as (H1 & H2 & H3). split; trivial. right.
    exists post, e. repeat split; trivial.
    rewrite H2, Hp3. simpl. now rewrite Hp. }
  injection E as <- <- <-. now contradiction S.
Qed.

(** X20: whatever the outcome, [unlink] is called for every temporary file of the
    request, and a file whose [unlink] succeeds is not on the disk
    afterwards; the route puts nothing on the disk. *)
Theorem createPost_unlinks_files
  (development : bool) (userId : string) (content : option string)
  (files : option (list File)) (st st' : Storage) (calls : list Call)
  (reply : PostReply) :
  createPost sv development userId content files st = (st', calls, reply) ->
  (forall f, In f (filesOf files) -> In (CallUnlink (path f)) calls) /\
  (forall f, In f (filesOf files) -> fs_unlink sv (path f) = true ->
             ~ In (path f) (disk st')) /\
  (forall p, In p (disk st') -> In p (disk st)).
Proof.
  unfold createPost. intros E.
  assert (G : forall urls e before done,
             catchBlock sv development files urls e before done
             = (st', calls, reply) ->
             (forall p, In p (disk before) -> In p (disk st)) ->
             (forall f, In f (filesOf files) -> In (CallUnlink (path f)) calls) /\
             (forall f, In f (filesOf files) -> fs_unlink sv (path f) = true ->
                        ~ In (path f) (disk st')) /\
             (forall p, In p (disk st') -> In p (disk st))).
  { intros urls e before done C Hb.
    pose proof (catchBlock_spec sv development files urls e before done) as H.
    rewrite C in H. destruct H as (_ & -> & _ & _ & _ & Hin & Hgone).
    repeat split; auto.
    intros f Hf. apply in_or_app. right. apply in_or_app. right.
    unfold unlinkCalls. apply in_map_iff. now exists f. }
  destruct (falsy content && noFiles files).
  { apply (G _ _ _ _ E). auto. }
  fold (filesOf files) in E.
  destruct (uploadEach sv (filesOf files) [] st) as [[[st1 calls1] res] urls] eqn:U.
  destruct (uploadEach_spec sv _ _ _ _ _ _ _ U) as (Hp & Hd & results & Hu & H).
  assert (D1 : forall p, In p (disk st1) -> In p (disk st)) by (intros p; congruence).
  destruct res as [e|[]].
  { apply (G _ _ _ _ E D1). }
  set (post := {| post_content := content; post_media := urls;
                  post_user := userId |}) in *.
  destruct (post_save sv post) as [e|] eqn:Sv.
  { apply (G _ _ _ _ E D1). }
  set (st2 := {| posts := posts st1 ++ [post]; cloud := cloud st1; disk := disk st1 |}) in *.
  assert (H3 : snd (cleanupFiles sv files st2) = unlinkCalls (filesOf files) /\
               (forall p, In p (disk (fst (cleanupFiles sv files st2))) -> In p (disk st)) /\
               (forall f, In f (filesOf files) -> fs_unlink sv (path f) = true ->
                          ~ In (path f) (disk (fst (cleanupFiles sv files st2))))).
  { destruct files as [fs|]; simpl.
    - destruct (unlinkEach_spec sv fs st2) as (Uc & _ & _ & Uin & Ugone & _).
      repeat split; auto.
    - repeat split; auto. }
  destruct (cleanupFiles sv files st2) as [st3 calls3]. simpl in H3.
  destruct H3 as (-> & Hin3 & Hgone3).
  destruct (post_populate sv post) as [e|] eqn:Pp.
  { apply (G _ _ _ _ E Hin3). }
  injection E as <- <- <-. repeat split; trivial.
  intros f Hf. apply in_or_app. right. simpl. right. apply in_or_app. left.
  unfold unlinkCalls. apply in_map_iff. now exists f.
Qed.

End CreatePost.

Lemma createPost_empty_refused_witness :
  createPost fairServices false U1 (Some EmptyString) (Some []) twoOnDisk =
  (twoOnDisk, [],
   {| pr_status := 400; pr_success := false;
      pr_message := "Post must contain either content or media files";
      pr_error := None; pr_post := None |}).
Proof.
  apply (createPost_empty_refused fairServices false U1 (Some EmptyString)
           (Some []) twoOnDisk); reflexivity.
Defined.

(** The second of two uploads fails: the first one is destroyed again. *)
Lemma createPost_failure_no_orphans_witness :
  pr_status (snd (createPost fairServices false U1 None (Some [photo; brokenGif])
                    twoOnDisk)) = 500 /\
  incl (cloud (fst (fst (createPost fairServices false U1 None
                           (Some [photo; brokenGif]) twoOnDisk))))
       (cloud twoOnDisk).
Proof.
  split; [reflexivity|].
  intros id Hid.
  refine (createPost_failure_no_orphans fairServices false U1 None
            (Some [photo; brokenGif]) twoOnDisk _ _ _ eq_refl _ _ id Hid).
  - discriminate.
  - reflexivity.
Defined.

(** [populate] rejects after the save: the post is stored, its media are
    destroyed. *)
Lemma createPost_failure_posts_witness :
  pr_status (snd (createPost noPopulate false U1 (Some "hello") (Some [photo]) twoOnDisk))
  = 500 /\
  exists post : Post,
    posts (fst (fst (createPost noPopulate false U1 (Some "hello") (Some [photo])
                       twoOnDisk)))
    = [post] /\
    forall m, In m (post_media post) ->
      In (CallDestroy (media_publicId m))
        (snd (fst (createPost noPopulate false U1 (Some "hello") (Some [photo])
                     twoOnDisk))).
Proof.
  split; [reflexivity|].
  destruct (createPost_failure_posts noPopulate false U1 (Some "hello")
              (Some [photo]) twoOnDisk _ _ _ eq_refl)
    as (_ & [H | (post & e & _ & _ & Hp & Hm)]).
  - discriminate.
  - discriminate H.
  - exists post. split; [exact Hp | exact Hm].
Defined.

Lemma createPost_unlinks_files_witness :
  In (CallUnlink "uploads/media-1.png")
    (snd (fst (createPost fairServices false U1 None (Some [photo; brokenGif])
                 twoOnDisk))) /\
  ~ In "uploads/media-3.gif"
    (disk (fst (fst (createPost fairServices false U1 None (Some [photo; brokenGif])
                       twoOnDisk)))).
Proof.
  destruct (createPost_unlinks_files fairServices false U1 None
              (Some [photo; brokenGif]) twoOnDisk _ _ _ eq_refl) as (H1 & H2 & _).
  split.
  - apply (H1 photo). now left.
  - apply (H2 brokenGif); [right; now left | reflexivity].
Defined.

(** ** The file filter and the error middleware *)

Lemma member_In (x : string) (l : list string) :
  JsText.member x l = true <-> In x l.
Proof.
  unfold JsText.member. rewrite existsb_exists. split.
  - intros (y & Hy & E). apply String.eqb_eq in E. now subst.
  - intros H. exists x. split; trivial. apply String.eqb_refl.
Qed.

(** X21: a file is accepted exactly when its MIME type is one of the five in the
    list.  A refusal is a plain [Error], not a [MulterError], so the error
    middleware of the router answers it with 500 "Internal server error"
    and not with a 400; outside development the reason is not sent. *)
Theorem fileFilter_refusal_is_500 (development : bool) (file : File) :
  match fileFilter file with
  | inr accepted => accepted = true /\ In (mimetype file) allowedTypes
  | inl error =>
      ~ In (mimetype file) allowedTypes /\
      er_status (routerError development error) = 500 /\
      er_message (routerError development error) = "Internal server error" /\
      (development = false -> er_error (routerError development error) = None)
  end.
Proof.
  unfold fileFilter.
  destruct (JsText.member (mimetype file) allowedTypes) eqn:M.
  - split; trivial. now apply member_In.
  - split; [intros H; apply member_In in H; congruence|].
    simpl. repeat split. now intros ->.
Qed.

Example fileFilter_script_refused :
  exists error,
    fileFilter script = inl error /\
    error_message error
    = "Invalid file type: text/javascript. Only JPEG, PNG, GIF and MP4 are allowed." /\
    er_status (routerError false error) = 500.
Proof. eexists. repeat split. Qed.

(** ** Registration and login *)

Example register_then_login_example :
  let s := fst (register bson toyCrypto online (Some "ada") (Some "ada@example.org")
                  (Some "secret") noAccounts) in
  login toyCrypto online "ada@example.org" "secret" s
  = LoggedIn "tok:000000000000000000000000" "000000000000000000000000"
      "ada@example.org" None /\
  login toyCrypto online "ada@example.org" "guess" s
  = LoginRefused {| ar_status := 400; ar_success := false;
                    ar_message := "Invalid password"; ar_error := None |} /\
  snd (register bson toyCrypto online (Some "eve") (Some "ada@example.org")
         (Some "other") s)
  = {| ar_status := 400; ar_success := false;
       ar_message := "Email already in use."; ar_error := None |}.
Proof. repeat split. Qed.

Section AccountsFacts.

Variable odm : Mongoose.
Variable crypto : Crypto.

Lemma findByEmail_None (e : string) (s : Accounts) :
  findByEmail e s = None <-> ~ In e (emails s).
Proof.
  unfold findByEmail, emails. induction (accounts s) as [|acc l IH]; simpl.
  - tauto.
  - destruct (String.eqb (email (account acc)) e) eqn:E.
    + apply String.eqb_eq in E. split; [discriminate | tauto].
    + apply String.eqb_neq in E. rewrite IH. tauto.
Qed.

Lemma findByEmail_added (e : string) (s : Accounts) (user : Account) (n : nat) :
  findByEmail e s = None -> email (account user) = e ->
  findByEmail e {| accounts := accounts s ++ [user]; made := n |} = Some user.
Proof.
  unfold findByEmail. simpl. intros H E.
  induction (accounts s) as [|acc l IH]; simpl in *.
  - rewrite E, String.eqb_refl. reflexivity.
  - destruct (String.eqb (email (account acc)) e); [discriminate | auto].
Qed.

(** X22: what a registration does to the User collection, for every input and
    every answer of the surroundings: the accounts stored before are kept;
    the answer reports success exactly when one account was added, and that
    account has the three given, non-empty fields with the password hashed,
    and an address no stored account had.  So addresses that were distinct
    stay distinct. *)
Theorem register_keeps_emails_distinct
  (a : AuthAnswers) (usernameField emailField passwordField : option string)
  (s : Accounts) :
  let s' := fst (register odm crypto a usernameField emailField passwordField s) in
  let reply := snd (register odm crypto a usernameField emailField passwordField s) in
  (NoDup (emails s) -> NoDup (emails s')) /\
  (ar_success reply = false -> accounts s' = accounts s) /\
  (ar_success reply = true ->
   exists user : Account,
     accounts s' = (accounts s ++ [user])%list /\
     usernameField = Some (username (account user)) /\
     emailField = Some (email (account user)) /\
     (exists p, passwordField = Some p /\ p <> EmptyString /\
                account_password user = bcrypt_hash crypto p (salt a)) /\
     username (account user) <> EmptyString /\
     email (account user) <> EmptyString /\
     ~ In (email (account user)) (emails s)).
Proof.
  unfold register.
  destruct (falsy usernameField || falsy emailField || falsy passwordField) eqn:F;
    simpl; [repeat split; trivial; discriminate|].
  destruct (queryAnswers a); simpl; [|repeat split; trivial; discriminate].
  destruct (findByEmail (fieldValue emailField) s) eqn:Fd; simpl;
    [repeat split; trivial; discriminate|].
  destruct (saveAnswers a); simpl; [|repeat split; trivial; discriminate].
  apply findByEmail_None in Fd.
  apply orb_false_iff in F as [F Fp]. apply orb_false_iff in F as [Fu Fe].
  destruct usernameField as [u|]; [|discriminate].
  destruct emailField as [e|]; [|discriminate].
  destruct passwordField as [p|]; [|discriminate].
  simpl in *. apply String.eqb_neq in Fu, Fe, Fp.
  split; [|split; [discriminate|]].
  - intros N. unfold emails in *. simpl. rewrite map_app. simpl.
    apply NoDup_app_remove_l with (l := []). simpl.
    apply Permutation_NoDup with (l := e :: map (fun acc => email (account acc)) (accounts s)).
    + apply Permutation_cons_append.
    + now constructor.
  - intros _. eexists. split; [reflexivity|]. simpl.
    repeat split; trivial. exists p. auto.
Qed.

(** X23: register, then log in: after a registration that reports success, a
    login with the same address and password is answered with a token signed
    for the user just created; a password that [bcrypt] does not match with
    the stored hash is refused with "Invalid password". *)
Theorem register_then_login
  (a a' : AuthAnswers) (usernameField emailField passwordField : option string)
  (s : Accounts) :
  ar_success (snd (register odm crypto a usernameField emailField passwordField s))
  = true ->
  queryAnswers a' = true ->
  let s' := fst (register odm crypto a usernameField emailField passwordField s) in
  let userId := newObjectId odm (made s) in
  login crypto a' (fieldValue emailField) (fieldValue passwordField) s'
  = LoggedIn (jwt_sign crypto userId (clock a')) userId (fieldValue emailField) None /\
  forall wrong : string,
    bcrypt_compare crypto wrong
      (bcrypt_hash crypto (fieldValue passwordField) (salt a)) = false ->
    login crypto a' (fieldValue emailField) wrong s'
    = LoginRefused {| ar_status := 400; ar_success := false;
                      ar_message := "Invalid password"; ar_error := None |}.
Proof.
  unfold register.
  destruct (falsy usernameField || falsy emailField || falsy passwordField);
    simpl; [discriminate|].
  destruct (queryAnswers a); simpl; [|discriminate].
  destruct (findByEmail (fieldValue emailField) s) eqn:Fd; simpl; [discriminate|].
  destruct (saveAnswers a); simpl; [|discriminate].
  intros _ Q. unfold login. rewrite Q. simpl.
  erewrite findByEmail_added; [|exact Fd|reflexivity]. simpl.
  rewrite bcrypt_sound. split; [reflexivity|].
  intros wrong H. now rewrite H.
Qed.

(** X24: log in, then authenticate: the token of a successful login, sent back
    as ["Bearer " ++ token], passes the middleware as the stored account
    whose address was given, provided the token still verifies for its user
    and holds no space; the answer of the login never carries a name. *)
Theorem login_token_authenticates
  (jwt_verify : string -> option string)
  (a : AuthAnswers) (emailField passwordField : string) (s : Accounts)
  (token userId userEmail : string) (name : option string) :
  login crypto a emailField passwordField s = LoggedIn token userId userEmail name ->
  jwt_verify token = Some userId ->
  spaceFree token = true ->
  authenticate jwt_verify (Some ("Bearer " ++ token)) = inr userId /\
  userEmail = emailField /\ name = None /\
  exists user : Account,
    In user (accounts s) /\ user_id (account user) = userId /\
    email (account user) = emailField /\
    bcrypt_compare crypto passwordField (account_password user) = true.
Proof.
  unfold login.
  destruct (queryAnswers a); simpl; [|discriminate].
  destruct (findByEmail emailField s) as [user|] eqn:F; [|discriminate].
  destruct (bcrypt_compare crypto passwordField (account_password user)) eqn:B;
    [|discriminate].
  intros [= <- <- <- <-] V Sp.
  unfold findByEmail in F. apply find_some in F as [Hin He].
  apply String.eqb_eq in He.
  split; [|repeat split; trivial; exists user; auto].
  pose proof (authenticate_after_space jwt_verify "Bearer"
                (jwt_sign crypto (user_id (account user)) (clock a)) eq_refl) as A.
  rewrite (split_spaceFree _ Sp) in A. cbn [hd] in A. rewrite V in A.
  exact A.
Qed.

End AccountsFacts.

Lemma register_then_login_witness :
  login toyCrypto online "ada@example.org" "secret"
    (fst (register bson toyCrypto online (Some "ada") (Some "ada@example.org")
            (Some "secret") noAccounts))
  = LoggedIn "tok:000000000000000000000000" "000000000000000000000000"
      "ada@example.org" None.
Proof.
  apply (register_then_login bson toyCrypto online online (Some "ada")
           (Some "ada@example.org") (Some "secret") noAccounts); reflexivity.
Defined.

Lemma login_token_authenticates_witness :
  authenticate prefixVerify (Some ("Bearer " ++ "tok:000000000000000000000000"))
  = inr "000000000000000000000000".
Proof.
  apply (login_token_authenticates toyCrypto prefixVerify online
           "ada@example.org" "secret"
           (fst (register bson toyCrypto online (Some "ada") (Some "ada@example.org")
                   (Some "secret") noAccounts))
           "tok:000000000000000000000000" "000000000000000000000000"
           "ada@example.org" None); reflexivity.
Defined.
